(** * The daily video agent: planner page, persistent state hook, publish route

    A shallow embedding of
    - [types/planner.ts]             (module [Planner]),
    - [hooks/usePersistentState.ts]  (module [PersistentState]),
    - [app/page.tsx]                 (module [Home]),
    - [app/api/instagram/publish/route.ts] (module [Route]),
    with the handful of JavaScript operations they rely on (module [JS]).

    Strings are [string]s read as sequences of code units below 256.
    Everything the code obtains from its surroundings (the clock, the id
    generator, [fetch], [localStorage], [JSON.parse], [publishVideo]) is an
    explicit argument of the function that uses it. *)

From Stdlib Require Import ZArith Ascii String List Sorted Permutation.
From stdpp Require Import base option list strings gmap.

Local Open Scope string_scope.
Set Warnings "-register-all".

(** ** JavaScript values and operations *)

Module JS.

(** A value produced by [JSON.parse].  A number is kept as the text that
      [Number.prototype.toString] gives for it: the code never computes with
      one, it only prints it. *)
Inductive json : Type :=
| JNull
| JBool (b : bool)
| JNum (shown : string)
| JStr (s : string)
| JArr (items : list json)
| JObj (members : list (string * json)).

(** The result of reading a property or variable: [None] is [undefined]. *)
Definition value : Type := option json.

(** What a [catch] clause receives.  [error instanceof Error] holds for
    [IsError], whose [message] is kept; every other thrown value is
    [NotError]. *)
Inductive thrown : Type :=
| IsError (message : string)
| NotError.

(** A computation that returns or throws. *)
Definition completion (A : Type) : Type := thrown + A.

Definition LF : string := String (ascii_of_nat 10) EmptyString.

(** The message of the [TypeError] raised by [null.p] (V8's wording; no
    statement below depends on the wording). *)
Definition cannot_read (p : string) : string :=
  "Cannot read properties of null (reading '" ++ p ++ "')".

(** The message of the [TypeError] raised by calling a property that is not
    a function. *)
Definition not_a_function (p : string) : string :=
  p ++ " is not a function".

(** The member named [p] of a parsed object, whose members have distinct
    names. *)
Fixpoint assoc (p : string) (members : list (string * json)) : value :=
  match members with
  | [] => None
  | (k, v) :: rest => if String.eqb k p then Some v else assoc p rest
  end.

(** [v.p] for a parsed value [v] and a property name [p] that no prototype
    defines (the code reads [status], [message], [instagramMediaId],
    [videoUrl] and [caption] only): it throws on [null], finds own members
    of an object, and is [undefined] on every other value. *)
Definition get (v : json) (p : string) : completion value :=
  match v with
  | JNull => inl (IsError (cannot_read p))
  | JObj members => inr (assoc p members)
  | _ => inr None
  end.

(** [v?.p]: as [v.p], but [undefined] when [v] is [null]. *)
Definition get_opt (v : json) (p : string) : value :=
  match v with
  | JObj members => assoc p members
  | _ => None
  end.

(** [a ?? b]: [b] when [a] is [undefined] or [null]. *)
Definition nullish (a : value) (b : json) : json :=
  match a with
  | None | Some JNull => b
  | Some v => v
  end.

(** [ToString], as a template literal applies it. *)
Fixpoint to_string (v : json) : string :=
  match v with
  | JNull => "null"
  | JBool true => "true"
  | JBool false => "false"
  | JNum shown => shown
  | JStr s => s
  | JArr items =>
      String.concat ","
        (List.map (fun x => match x with JNull => "" | _ => to_string x end) items)
  | JObj _ => "[object Object]"
  end.

(** [WhiteSpace] and [LineTerminator] code units below 256. *)
Definition is_white_space (c : ascii) : bool :=
  let n := nat_of_ascii c in
  ((9 <=? n)%nat && (n <=? 13)%nat) || (n =? 32)%nat || (n =? 160)%nat.

Fixpoint trim_start (s : string) : string :=
  match s with
  | EmptyString => EmptyString
  | String c rest => if is_white_space c then trim_start rest else s
  end.

Definition trim_end (s : string) : string :=
  String.rev (trim_start (String.rev s)).

(** [String.prototype.trim] *)
Definition trim (s : string) : string := trim_end (trim_start s).

(** [Boolean(s)] for a string: the empty string only is falsy. *)
Definition truthy (s : string) : bool :=
  match s with
  | EmptyString => false
  | String _ _ => true
  end.

(** [parts.join(sep)] for an array of strings. *)
Definition join (sep : string) (parts : list string) : string :=
  String.concat sep parts.

(** [v?.trim()] for a property value [v] written [path] in the code:
    [undefined] for [undefined] and [null], the trimmed string for a string,
    and a [TypeError] for every other parsed value, none of which has a
    callable [trim]. *)
Definition trim_opt (path : string) (v : value) : completion (option string) :=
  match v with
  | None | Some JNull => inr None
  | Some (JStr s) => inr (Some (trim s))
  | Some _ => inl (IsError (not_a_function (path ++ "?.trim")))
  end.

(** [!v] for a value that is [undefined] or a string. *)
Definition falsy (v : option string) : bool :=
  match v with
  | None => true
  | Some s => negb (truthy s)
  end.

(** [s.split(sep)] for a separator of one code unit: the pieces between the
    separators, of which there is always one at least. *)
Fixpoint split_on (sep : ascii) (s : string) : list string :=
  match s with
  | EmptyString => [EmptyString]
  | String c rest =>
      if Ascii.eqb c sep then EmptyString :: split_on sep rest
      else
        match split_on sep rest with
        | piece :: pieces => String c piece :: pieces
        | [] => [String c EmptyString]
        end
  end.

(** [s.split(/\s+/)]: the pieces between the runs of white space; a run at
    either end leaves an empty piece there. *)
Fixpoint split_spaces (s : string) : list string :=
  match s with
  | EmptyString => [EmptyString]
  | String c rest =>
      if is_white_space c then
        match rest with
        | String c' _ => if is_white_space c' then split_spaces rest
                         else EmptyString :: split_spaces rest
        | EmptyString => EmptyString :: split_spaces rest
        end
      else
        match split_spaces rest with
        | piece :: pieces => String c piece :: pieces
        | [] => [String c EmptyString]
        end
  end.

(** [s.startsWith(prefix)] *)
Definition startsWith (prefix s : string) : bool := String.prefix prefix s.

(** Where [x] goes in an array sorted by [compare] when it came after all
    of its elements: before the first element that [compare] puts after it. *)
Fixpoint sort_insert {A : Type} (compare : A -> A -> Z) (x : A) (sorted : list A) : list A :=
  match sorted with
  | [] => [x]
  | y :: rest =>
      if (0 <? compare y x)%Z then x :: y :: rest
      else y :: sort_insert compare x rest
  end.

(** [items.sort(compare)] for a consistent comparator, for which the result of
    a stable sort, as the language requires, is determined: elements that
    [compare] does not order keep their places relative to each other. *)
Definition sort {A : Type} (compare : A -> A -> Z) (items : list A) : list A :=
  List.fold_left (fun sorted x => sort_insert compare x sorted) items [].

(** The names of the properties of [Object.prototype], which every object
    written [{}] inherits: all are functions but [__proto__], which is the
    prototype itself, and none has a [push]. *)
Definition object_prototype_names : list string :=
  ["constructor"; "hasOwnProperty"; "isPrototypeOf"; "propertyIsEnumerable";
   "toLocaleString"; "toString"; "valueOf"; "__proto__";
   "__defineGetter__"; "__defineSetter__"; "__lookupGetter__"; "__lookupSetter__"].

Definition inherited (name : string) : bool :=
  List.existsb (String.eqb name) object_prototype_names.

(** Predicates on strings, for stating properties: a string that does not
    begin with white space, one that has none, and one without a given code
    unit. *)
Definition starts_clean (s : string) : Prop :=
  match s with
  | EmptyString => True
  | String c _ => is_white_space c = false
  end.

Fixpoint spaceless (s : string) : bool :=
  match s with
  | EmptyString => true
  | String c rest => negb (is_white_space c) && spaceless rest
  end.

Fixpoint without (sep : ascii) (s : string) : bool :=
  match s with
  | EmptyString => true
  | String c rest => negb (Ascii.eqb c sep) && without sep rest
  end.

End JS.

(** ** [types/planner.ts] *)

Module Planner.

Inductive VideoTaskStatus : Type :=
| draft | ready | queued | publishing | published | failed.

Module VideoTask.
(** [notes] is declared a string, but [handlePublish] stores in it
      whatever the response body has under [message] (the body is cast, not
      checked), so the field holds a parsed value; [None] is an absent
      property. *)
Record t : Type := mk {
  id : string;
  date : string;
  time : string;
  title : string;
  caption : string;
  hashtags : list string;
  videoUrl : string;
  autopost : bool;
  notes : option JS.json;
  status : VideoTaskStatus;
  createdAt : string;
  updatedAt : string;
}.
End VideoTask.

(** [Partial<VideoTask>]: every property may be left out. *)
Module Partial.
Record t : Type := mk {
  id : option string;
  date : option string;
  time : option string;
  title : option string;
  caption : option string;
  hashtags : option (list string);
  videoUrl : option string;
  autopost : option bool;
  notes : option JS.json;
  status : option VideoTaskStatus;
  createdAt : option string;
  updatedAt : option string;
}.

Definition empty : t :=
  mk None None None None None None None None None None None None.
End Partial.

Module PublishResponse.
(** [status] is declared ["success" | "error"]; it is kept a string, as
      the route compares it with ["success"] only. *)
Record t : Type := mk {
  status : string;
  message : string;
  instagramMediaId : option string;
  publishId : option string;
}.
End PublishResponse.

End Planner.

(** ** [hooks/usePersistentState.ts] *)

Module PersistentState.

(** [window.localStorage], as far as the hook uses it.  Both calls may throw
    (storage disabled, quota exceeded); a failed [setItem] leaves the storage
    as it was. *)
Class Storage (S : Type) : Type := {
  getItem : S -> string -> JS.completion (option string);
  setItem : S -> string -> string -> JS.completion S;
}.

(** [JSON.parse] followed by the cast [as T], and [JSON.stringify].  [parse]
    throws on a text that is not JSON; a text that is JSON for a value of
    another shape than [T] passes the cast unchecked in the code, and has no
    counterpart here. *)
Class Codec (T : Type) : Type := {
  parse : string -> JS.completion T;
  stringify : T -> JS.completion string;
}.

(** A storage held in memory, which never throws. *)
#[global] Instance memory_storage : Storage (gmap string string) := {|
  getItem m key := inr (m !! key);
  setItem m key text := inr (<[key := text]> m);
|}.

(** The two [useState] variables of one use of the hook, with the browser's
    storage and the lines written by [console.error]. *)
Record cell (S T : Type) : Type := Cell {
  state : T;
  hydrated : bool;
  localStorage : S;
  console_error : list string;
}.
Arguments Cell {S T}.
Arguments state {S T}.
Arguments hydrated {S T}.
Arguments localStorage {S T}.
Arguments console_error {S T}.

Section hook.
Context {S T : Type} `{Storage S} `{Codec T}.

Definition setState (v : T) (c : cell S T) : cell S T :=
  Cell v (hydrated c) (localStorage c) (console_error c).

Definition setHydrated (b : bool) (c : cell S T) : cell S T :=
  Cell (state c) b (localStorage c) (console_error c).

Definition setStorage (s : S) (c : cell S T) : cell S T :=
  Cell (state c) (hydrated c) s (console_error c).

Definition log_error (line : string) (c : cell S T) : cell S T :=
  Cell (state c) (hydrated c) (localStorage c) (console_error c ++ [line]).

(** The first render: [useState(defaultValue)], [useState(false)]. *)
Definition mount (defaultValue : T) (storage : S) : cell S T :=
  Cell defaultValue false storage [].

(** The body of the [try] of the effect: [getItem], then [JSON.parse] and
    [setState] when the stored text is truthy. *)
Definition read (key : string) (c : cell S T) : JS.completion (cell S T) :=
  match getItem (localStorage c) key with
  | inl e => inl e
  | inr None => inr c
  | inr (Some storedValue) =>
      if JS.truthy storedValue then
        match parse storedValue with
        | inl e => inl e
        | inr v => inr (setState v c)
        end
      else inr c
  end.

(** The effect: [try { read } catch { console.error } finally { setHydrated }]. *)
Definition hydrate (key : string) (c : cell S T) : cell S T :=
  setHydrated true
    match read key c with
    | inr c' => c'
    | inl _ => log_error ("Failed to read " ++ key ++ " from localStorage") c
    end.

(** The body of the [try] of [updateState]: stringify, then [setItem]. *)
Definition persist (key : string) (nextValue : T) (storage : S) : JS.completion S :=
  match stringify nextValue with
  | inl e => inl e
  | inr text => setItem storage key text
  end.

(** [updateState(update)]: [update] is a value ([inl]) or a function of the
    previous state ([inr]). *)
Definition updateState (key : string) (update : T + (T -> T)) (c : cell S T) : cell S T :=
  let nextValue :=
    match update with
    | inr f => f (state c)
    | inl v => v
    end in
  setState nextValue
    match persist key nextValue (localStorage c) with
    | inr storage' => setStorage storage' c
    | inl _ => log_error ("Failed to persist " ++ key ++ " to localStorage") c
    end.

(** The hook once its effect has run. *)
Definition usePersistentState (key : string) (defaultValue : T) (storage : S) : cell S T :=
  hydrate key (mount defaultValue storage).

End hook.

End PersistentState.

(** ** [app/page.tsx] *)

Module Home.
Import Planner.
Import PersistentState.

(** [Omit<VideoTask, "id" | "status" | "createdAt" | "updatedAt">] *)
Module Draft.
Record t : Type := mk {
  date : string;
  time : string;
  title : string;
  caption : string;
  hashtags : list string;
  videoUrl : string;
  autopost : bool;
  notes : option JS.json;
}.
End Draft.

Definition defaultTime : string := "10:00".

(** [initialTaskDraft()]; [today] is [new Date().toISOString().slice(0, 10)]. *)
Definition initialTaskDraft (today : string) : Draft.t :=
  Draft.mk today defaultTime "" "" [] "" true (Some (JS.JStr "")).

(** What [fetch("/api/instagram/publish", ...)] and [response.json()] give:
    [fetch] rejects, or it resolves with a response of HTTP status [code]
    whose [json()] rejects or resolves with the parsed body. *)
Inductive fetched : Type :=
| Rejected (e : JS.thrown)
| Resolved (code : Z) (body : JS.completion JS.json).

(** [response.ok] *)
Definition ok (code : Z) : bool := (200 <=? code)%Z && (code <=? 299)%Z.

(** The object given to [JSON.stringify] as the request body. *)
Record payload : Type := Payload {
  payload_videoUrl : string;
  payload_caption : string;
}.

(** [{ ...task, ...updates }] *)
Definition spread (task : VideoTask.t) (updates : Partial.t) : VideoTask.t :=
  VideoTask.mk
    (default (VideoTask.id task) (Partial.id updates))
    (default (VideoTask.date task) (Partial.date updates))
    (default (VideoTask.time task) (Partial.time updates))
    (default (VideoTask.title task) (Partial.title updates))
    (default (VideoTask.caption task) (Partial.caption updates))
    (default (VideoTask.hashtags task) (Partial.hashtags updates))
    (default (VideoTask.videoUrl task) (Partial.videoUrl updates))
    (default (VideoTask.autopost task) (Partial.autopost updates))
    (match Partial.notes updates with
     | Some v => Some v
     | None => VideoTask.notes task
     end)
    (default (VideoTask.status task) (Partial.status updates))
    (default (VideoTask.createdAt task) (Partial.createdAt updates))
    (default (VideoTask.updatedAt task) (Partial.updatedAt updates)).

(** [{ ...t, updatedAt: now }] *)
Definition with_updatedAt (now : string) (t : VideoTask.t) : VideoTask.t :=
  VideoTask.mk (VideoTask.id t) (VideoTask.date t) (VideoTask.time t)
    (VideoTask.title t) (VideoTask.caption t) (VideoTask.hashtags t)
    (VideoTask.videoUrl t) (VideoTask.autopost t) (VideoTask.notes t)
    (VideoTask.status t) (VideoTask.createdAt t) now.

(** [{ status }] and [{ status, notes }] *)
Definition status_only (s : VideoTaskStatus) : Partial.t :=
  Partial.mk None None None None None None None None None (Some s) None None.

Definition status_and_notes (s : VideoTaskStatus) (n : JS.json) : Partial.t :=
  Partial.mk None None None None None None None None (Some n) (Some s) None None.

(** [isBefore(scheduledAt, now)] of date-fns: a comparison of time values,
    false when [scheduledAt] is an invalid date ([None]). *)
Definition isBefore (scheduledAt : option Z) (now : Z) : bool :=
  match scheduledAt with
  | Some t => (t <? now)%Z
  | None => false
  end.

Definition is_published (s : VideoTaskStatus) : bool :=
  match s with
  | published => true
  | _ => false
  end.

(** The caption sent out:
    [[task.caption, task.hashtags.join(" ")].filter(Boolean).join("\n\n")] *)
Definition outbound_caption (task : VideoTask.t) : string :=
  JS.join (JS.LF ++ JS.LF)
    (List.filter JS.truthy
       [VideoTask.caption task; JS.join " " (VideoTask.hashtags task)]).

(** The request body of [handlePublish]. *)
Definition request_body (task : VideoTask.t) : payload :=
  Payload (VideoTask.videoUrl task) (outbound_caption task).

(** The notes of the [catch] clause of [handlePublish]. *)
Definition caught_notes (error : JS.thrown) : JS.json :=
  match error with
  | JS.IsError message => JS.JStr message
  | JS.NotError => JS.JStr "Unexpected error while publishing."
  end.

(** [response.ok && result.status === "success"], which reads
    [result.status] only when [response.ok] holds. *)
Definition succeeded (code : Z) (result : JS.json) : JS.completion bool :=
  if ok code then
    match JS.get result "status" with
    | inl e => inl e
    | inr (Some (JS.JStr s)) => inr (String.eqb s "success")
    | inr _ => inr false
    end
  else inr false.

(** The [try] block of [handlePublish] from [await fetch] on, up to the
    argument of the [updateTask] it reaches. *)
Definition attempt (response : fetched) : JS.completion Partial.t :=
  match response with
  | Rejected e => inl e
  | Resolved code (inl e) => inl e
  | Resolved code (inr result) =>
      match succeeded code result with
      | inl e => inl e
      | inr true =>
          match JS.get result "instagramMediaId" with
          | inl e => inl e
          | inr mediaId =>
              inr (status_and_notes published
                     (JS.JStr ("Published with media id " ++
                               JS.to_string (JS.nullish mediaId (JS.JStr "unknown")))))
          end
      | inr false =>
          inr (status_and_notes failed
                 (JS.nullish (JS.get_opt result "message")
                             (JS.JStr "Failed to publish video.")))
      end
  end.

(** The updates [handlePublish] applies once the request has settled: those
    of the [try] block, or those of the [catch] clause. *)
Definition outcome (response : fetched) : Partial.t :=
  match attempt response with
  | inr updates => updates
  | inl error => status_and_notes failed (caught_notes error)
  end.

(** The argument of [generateCaption], of [lib/caption]. *)
Module CaptionInput.
Record t : Type := mk {
  hook : string;
  topic : string;
  callToAction : string;
  industry : option string;
}.
End CaptionInput.

(** The hashtags the form's input gives for a text:
    [text.split(",").map((tag) => tag.trim()).filter(Boolean)] *)
Definition hashtags_of_input (text : string) : list string :=
  List.filter JS.truthy (List.map JS.trim (JS.split_on "," text)).

(** The hashtags taken from a generated caption:
    [output.split(/\s+/).filter((word) => word.startsWith("#")).map((tag) => tag.trim())] *)
Definition hashtags_of_caption (output : string) : list string :=
  List.map JS.trim (List.filter (JS.startsWith "#") (JS.split_spaces output)).

(** An element of [upcomingDays]. *)
Module Day.
Record t : Type := mk {
  id : string;
  label : string;
  display : string;
  tasks : list VideoTask.t;
}.
End Day.

(** [{ ...prev, hashtags }] and [{ ...prev, caption, hashtags }] *)
Definition with_hashtags (hashtags : list string) (prev : Draft.t) : Draft.t :=
  Draft.mk (Draft.date prev) (Draft.time prev) (Draft.title prev)
    (Draft.caption prev) hashtags (Draft.videoUrl prev) (Draft.autopost prev)
    (Draft.notes prev).

Definition with_caption (caption : string) (hashtags : list string) (prev : Draft.t) : Draft.t :=
  Draft.mk (Draft.date prev) (Draft.time prev) (Draft.title prev)
    caption hashtags (Draft.videoUrl prev) (Draft.autopost prev)
    (Draft.notes prev).

Section page.
Context {S : Type} `{Storage S} `{Codec (list VideoTask.t)}.

(** [new Date(text).getTime()]: the time value of the date a string denotes
    in the browser's time zone, [None] for an invalid date. *)
Variable Date_of : string -> option Z.

(** The state of the component: the persisted tasks, the [useState]
    variables, and the task whose publish request is in flight. *)
Record app : Type := App {
  store : cell S (list VideoTask.t);
  draft : Draft.t;
  industry : string;
  topic : string;
  callToAction : string;
  hook : string;
  isPublishing : option string;
}.

Definition storage_key : string := "daily-video-agent-tasks".

Definition tasks (a : app) : list VideoTask.t := state (store a).

(** [setTasks], the [updateState] of [usePersistentState]. *)
Definition setTasks (update : list VideoTask.t -> list VideoTask.t) (a : app) : app :=
  App (updateState storage_key (inr update) (store a))
      (draft a) (industry a) (topic a) (callToAction a) (hook a) (isPublishing a).

Definition setIsPublishing (v : option string) (a : app) : app :=
  App (store a) (draft a) (industry a) (topic a) (callToAction a) (hook a) v.

(** The component once mounted and hydrated. *)
Definition start (today : string) (storage : S) : app :=
  App (usePersistentState storage_key [] storage)
      (initialTaskDraft today) "" "" "" "" None.

Definition overdueTasks (now : Z) (a : app) : list VideoTask.t :=
  List.filter
    (fun task =>
       let scheduledAt := Date_of (VideoTask.date task ++ "T" ++ VideoTask.time task) in
       isBefore scheduledAt now && negb (is_published (VideoTask.status task)))
    (tasks a).

(** The task [saveTaskDraft] builds: [newId] is [createId()], [now1] and
    [now2] are the two readings of [new Date().toISOString()]. *)
Definition newTask (d : Draft.t) (newId now1 now2 : string) : VideoTask.t :=
  VideoTask.mk newId (Draft.date d) (Draft.time d) (Draft.title d)
    (Draft.caption d)
    (List.filter JS.truthy (List.map JS.trim (Draft.hashtags d)))
    (Draft.videoUrl d) (Draft.autopost d) (Draft.notes d)
    (if Draft.autopost d then queued else ready)
    now1 now2.

Definition saveTaskDraft (newId now1 now2 today : string) (a : app) : app :=
  let a1 := setTasks (fun current => (current ++ [newTask (draft a) newId now1 now2])%list) a in
  App (store a1) (initialTaskDraft today) (industry a1) "" "" "" (isPublishing a1).

Definition updateTask (taskId : string) (updates : Partial.t) (now : string) (a : app) : app :=
  setTasks
    (List.map (fun task =>
       if String.eqb (VideoTask.id task) taskId
       then with_updatedAt now (spread task updates)
       else task))
    a.

Definition deleteTask (taskId : string) (a : app) : app :=
  setTasks (List.filter (fun task => negb (String.eqb (VideoTask.id task) taskId))) a.

(** [handlePublish] up to its [await fetch]: the state in which the request
    leaves, and the request body. *)
Definition handlePublish_request (now : string) (task : VideoTask.t) (a : app) : app * payload :=
  (updateTask (VideoTask.id task) (status_only publishing) now
     (setIsPublishing (Some (VideoTask.id task)) a),
   request_body task).

(** [handlePublish] from the settling of the request on. *)
Definition handlePublish_settle (now : string) (task : VideoTask.t) (response : fetched) (a : app) : app :=
  setIsPublishing None (updateTask (VideoTask.id task) (outcome response) now a).

(** A whole publish attempt.  [network] answers the request; [meanwhile] is
    what other handlers did to the state while the request was in flight. *)
Definition handlePublish (now0 now1 : string) (task : VideoTask.t)
    (network : payload -> fetched) (meanwhile : app -> app) (a : app) : app :=
  let '(a1, request) := handlePublish_request now0 task a in
  handlePublish_settle now1 task (network request) (meanwhile a1).

(** [a.localeCompare(b)]: negative, zero or positive, as the browser's
    collation orders the two strings. *)
Variable localeCompare : string -> string -> Z.

(** [generateCaption] of [lib/caption]. *)
Variable generateCaption : CaptionInput.t -> string.

Definition setDraft (update : Draft.t -> Draft.t) (a : app) : app :=
  App (store a) (update (draft a)) (industry a) (topic a) (callToAction a)
      (hook a) (isPublishing a).

(** The [value] of the hashtags input, and its [onChange] for the text typed. *)
Definition hashtags_value (a : app) : string :=
  JS.join ", " (Draft.hashtags (draft a)).

Definition hashtags_onChange (text : string) (a : app) : app :=
  setDraft (with_hashtags (hashtags_of_input text)) a.

Definition handleCaptionGenerate (a : app) : app :=
  let output :=
    generateCaption
      (CaptionInput.mk (hook a) (topic a) (callToAction a)
         (if JS.truthy (industry a) then Some (industry a) else None)) in
  setDraft (with_caption output (hashtags_of_caption output)) a.

(** One step of the [reduce] of [groupedTasks], on an accumulator that
    began as [{}] and whose own properties are the keys of [acc].
    [acc[task.date] ?? []] is the array of the date when the accumulator has
    one, and a new array when the date names nothing; when the date names a
    property of [Object.prototype], it is that inherited value, and calling
    its [push] throws.  Otherwise the task is pushed and the array is sorted
    by time. *)
Definition group (acc : gmap string (list VideoTask.t)) (task : VideoTask.t)
    : JS.completion (gmap string (list VideoTask.t)) :=
  match acc !! VideoTask.date task with
  | Some bucket =>
      inr (<[VideoTask.date task :=
               JS.sort (fun a b => localeCompare (VideoTask.time a) (VideoTask.time b))
                 (bucket ++ [task])%list]> acc)
  | None =>
      if JS.inherited (VideoTask.date task) then
        inl (JS.IsError (JS.not_a_function "acc[task.date].push"))
      else
        inr (<[VideoTask.date task :=
                 JS.sort (fun a b => localeCompare (VideoTask.time a) (VideoTask.time b))
                   [task]]> acc)
  end.

(** [tasks.reduce(..., {})]: the first step that throws ends the reduce. *)
Definition groupedTasks (a : app) : JS.completion (gmap string (list VideoTask.t)) :=
  List.fold_left
    (fun acc task =>
       match acc with
       | inl e => inl e
       | inr buckets => group buckets task
       end)
    (tasks a) (inr ∅).

(** [upcomingDays], from the value of [groupedTasks].  [calendar index] is
    the day [index] days from now: its [format(date, "yyyy-MM-dd")], which
    names no property of [Object.prototype], its ["EEEE"] and its ["MMM d"]. *)
Definition upcomingDays (calendar : nat -> string * string * string)
    (grouped : gmap string (list VideoTask.t)) : list Day.t :=
  List.map
    (fun index =>
       let '(id, label, display) := calendar index in
       Day.mk id label display (default [] (grouped !! id)))
    (List.seq 0 7).

(** The text under "Streak", from the value of [groupedTasks]; [today] is
    [new Date().toISOString().slice(0, 10)], which names no property of
    [Object.prototype]. *)
Definition streak (today : string) (grouped : gmap string (list VideoTask.t)) : string :=
  match grouped !! today with
  | Some bucket =>
      if List.existsb (fun task => is_published (VideoTask.status task)) bucket
      then "On Track" else "Schedule Today's Drop"
  | None => "Schedule Today's Drop"
  end.

(** The number under "Queued". *)
Definition queued_count (a : app) : nat :=
  List.length
    (List.filter
       (fun task =>
          match VideoTask.status task with
          | queued | ready => true
          | _ => false
          end)
       (tasks a)).

(** The "Reset to ready" and "Toggle ready" buttons of a task as rendered. *)
Definition reset_to_ready (task : VideoTask.t) (now : string) (a : app) : app :=
  updateTask (VideoTask.id task) (status_only ready) now a.

Definition toggle_ready (task : VideoTask.t) (now : string) (a : app) : app :=
  updateTask (VideoTask.id task)
    (status_only match VideoTask.status task with
                 | ready => queued
                 | _ => ready
                 end)
    now a.

End page.

End Home.

(** ** [app/api/instagram/publish/route.ts] *)

Module Route.
Import Planner.

(** [NextResponse.json(body, { status })].  The two error bodies built by the
    route have [status] and [message] only. *)
Record NextResponse : Type := Json {
  body : PublishResponse.t;
  status : Z;
}.

(** An [async] function of the route: it returns, throws, or awaits
    [publishVideo(videoUrl, caption)] and goes on with what that resolves to. *)
Inductive async (A : Type) : Type :=
| Return (a : A)
| Raise (e : JS.thrown)
| Await_publishVideo (videoUrl caption : string) (k : PublishResponse.t -> async A).
Arguments Return {A}.
Arguments Raise {A}.
Arguments Await_publishVideo {A}.

(** Running an [async] function against an implementation of [publishVideo]
    (of [lib/instagram], which may itself reject): the calls made, in order,
    and how the function completes. *)
Fixpoint run {A : Type} (publishVideo : string -> string -> JS.completion PublishResponse.t)
    (p : async A) : list (string * string) * JS.completion A :=
  match p with
  | Return a => ([], inr a)
  | Raise e => ([], inl e)
  | Await_publishVideo videoUrl caption k =>
      match publishVideo videoUrl caption with
      | inl e => ([(videoUrl, caption)], inl e)
      | inr r =>
          let '(calls, result) := run publishVideo (k r) in
          ((videoUrl, caption) :: calls, result)
      end
  end.

Definition error_body (message : string) : PublishResponse.t :=
  PublishResponse.mk "error" message None None.

(** The two [const] declarations after the [try]:
    [body.videoUrl?.trim()] and [body.caption?.trim()], in this order. *)
Definition trimmed_fields (body : JS.json) : JS.completion (option string * option string) :=
  match JS.get body "videoUrl" with
  | inl e => inl e
  | inr v =>
      match JS.trim_opt "body.videoUrl" v with
      | inl e => inl e
      | inr videoUrl =>
          match JS.get body "caption" with
          | inl e => inl e
          | inr c =>
              match JS.trim_opt "body.caption" c with
              | inl e => inl e
              | inr caption => inr (videoUrl, caption)
              end
          end
      end
  end.

(** [POST(request)]; [request_json] is what [await request.json()] gives. *)
Definition POST (request_json : JS.completion JS.json) : async NextResponse :=
  match request_json with
  | inl _ => Return (Json (error_body "Invalid JSON body received.") 400)
  | inr body =>
      match trimmed_fields body with
      | inl e => Raise e
      | inr (videoUrl, caption) =>
          if JS.falsy videoUrl then
            Return (Json (error_body "Provide a publicly accessible videoUrl.") 400)
          else if JS.falsy caption then
            Return (Json (error_body "Caption cannot be empty.") 400)
          else
            (* both are strings here *)
            Await_publishVideo (default "" videoUrl) (default "" caption)
              (fun publishResponse =>
                 let statusCode :=
                   if String.eqb (PublishResponse.status publishResponse) "success"
                   then 200%Z else 502%Z in
                 Return (Json publishResponse statusCode))
      end
  end.

End Route.

(** ** The page's request, answered by the route *)

Module Wire.
Import Planner.

(** What [request.json()] gives the route for the body
    [JSON.stringify({ videoUrl, caption })] of the page. *)
Definition request_json (request : Home.payload) : JS.completion JS.json :=
  inr (JS.JObj [("videoUrl", JS.JStr (Home.payload_videoUrl request));
                ("caption", JS.JStr (Home.payload_caption request))]).

Definition optional_member (name : string) (v : option string) : list (string * JS.json) :=
  match v with
  | Some s => [(name, JS.JStr s)]
  | None => []
  end.

(** What [response.json()] gives the page for a body written by
    [NextResponse.json]: the properties that are defined. *)
Definition response_json (body : PublishResponse.t) : JS.json :=
  JS.JObj ([("status", JS.JStr (PublishResponse.status body));
            ("message", JS.JStr (PublishResponse.message body))]
           ++ optional_member "instagramMediaId" (PublishResponse.instagramMediaId body)
           ++ optional_member "publishId" (PublishResponse.publishId body))%list.

(** [fetch("/api/instagram/publish", ...)] served by [POST]; [crashed] is
    what the framework answers when [POST] throws. *)
Definition fetch (publishVideo : string -> string -> JS.completion PublishResponse.t)
    (crashed : JS.thrown -> Home.fetched) (request : Home.payload) : Home.fetched :=
  match snd (Route.run publishVideo (Route.POST (request_json request))) with
  | inr response =>
      Home.Resolved (Route.status response) (inr (response_json (Route.body response)))
  | inl e => crashed e
  end.

End Wire.

(** ** Concrete surroundings, for running the definitions *)

Module Samples.
Import Planner.
Import PersistentState.
Import Home.

(** A decoder that accepts the text of the empty array and rejects every
    other text as [JSON.parse] rejects malformed input, with an encoder that
    prints the empty array for every collection. *)
#[global] Instance brackets_codec : Codec (list VideoTask.t) := {|
  parse text :=
    if String.eqb text "[]" then inr []
    else inl (JS.IsError "Unexpected token in JSON");
  stringify _ := inr "[]";
|}.

Definition reel (id : string) (s : VideoTaskStatus) : VideoTask.t :=
  VideoTask.mk id "2024-05-01" "10:00" "Teaser" "Day 5 mobility flow"
    ["#mobility"; "#reels"] "https://cdn.example/day5.mp4" true None s
    "2024-04-30T08:00:00.000Z" "2024-04-30T08:00:00.000Z".

Definition board : app (S := gmap string string) :=
  App (Cell [reel "a1" queued; reel "b2" ready] true ∅ [])
      (initialTaskDraft "2024-05-01") "" "" "" "" None.

(** A task scheduled on a day of [calendar] below. *)
Definition dated (id date : string) (s : VideoTaskStatus) : VideoTask.t :=
  VideoTask.mk id date "10:00" "Teaser" "Day 5 mobility flow"
    ["#mobility"; "#reels"] "https://cdn.example/day5.mp4" true None s
    "2024-04-29T08:00:00.000Z" "2024-04-29T08:00:00.000Z".

(** A board seen on 2024-05-01: two tasks of the day before, one of them
    published, and two tasks of the day after. *)
Definition week : app (S := gmap string string) :=
  App (Cell [dated "d1" "2024-04-30" ready; dated "d2" "2024-04-30" published;
             dated "d3" "2024-05-02" failed; dated "d4" "2024-05-02" published]
            true ∅ [])
      (initialTaskDraft "2024-05-01") "" "" "" "" None.

(** A task without caption text. *)
Definition bare_reel : VideoTask.t :=
  VideoTask.mk "c3" "2024-05-01" "10:00" "Teaser" "" ["#reels"]
    "https://cdn.example/day5.mp4" true None queued
    "2024-04-30T08:00:00.000Z" "2024-04-30T08:00:00.000Z".

(** A network that answers 502 with an error body, and one that answers 200
    with a media id. *)
Definition rate_limited (request : payload) : fetched :=
  Resolved 502 (inr (JS.JObj [("status", JS.JStr "error");
                              ("message", JS.JStr "rate limited")])).

Definition accepted (request : payload) : fetched :=
  Resolved 200 (inr (JS.JObj [("status", JS.JStr "success");
                              ("instagramMediaId", JS.JStr "m123")])).

(** The time values of three date strings in a browser set to UTC; every
    other string counts as an invalid date here. *)
Definition calendar : gmap string Z :=
  {[ "2024-04-30T10:00" := 1714471200000%Z;
     "2024-05-01T10:00" := 1714557600000%Z;
     "2024-05-02T10:00" := 1714644000000%Z ]}.

Definition calendar_date (text : string) : option Z := calendar !! text.

(** 2024-05-01T12:00:00Z *)
Definition noon : Z := 1714564800000%Z.

(** A storage whose entry for the tasks is not JSON. *)
Definition corrupted : gmap string string :=
  {[ storage_key := "{not json" ]}.

(** An upstream that publishes everything. *)
Definition publishes (videoUrl caption : string) : JS.completion PublishResponse.t :=
  inr (PublishResponse.mk "success" "Video published." (Some "m123") None).

Definition publish_request : list (string * JS.json) :=
  [("videoUrl", JS.JStr " https://cdn.example/day5.mp4 ");
   ("caption", JS.JStr "Day 5 mobility flow")].

(** A browser that denies access to the storage: both calls throw. *)
Inductive denied : Type := Denied.

#[global] Instance denied_storage : Storage denied := {|
  getItem _ _ := inl (JS.IsError "The operation is insecure.");
  setItem _ _ _ := inl (JS.IsError "The operation is insecure.");
|}.

(** A caption generator that puts two hashtags under the topic. *)
Definition slogan (input : CaptionInput.t) : string :=
  CaptionInput.topic input ++ JS.LF ++ "#daily  #reels".

(** The comparison of strings by code units, for [localeCompare]. *)
Definition by_code_units (s t : string) : Z :=
  match String.compare s t with
  | Lt => (-1)%Z
  | Eq => 0%Z
  | Gt => 1%Z
  end.

(** The week that begins on 2024-05-01, a Wednesday. *)
Definition may_days (index : nat) : string * string * string :=
  List.nth index
    [("2024-05-01", "Wednesday", "May 1"); ("2024-05-02", "Thursday", "May 2");
     ("2024-05-03", "Friday", "May 3"); ("2024-05-04", "Saturday", "May 4");
     ("2024-05-05", "Sunday", "May 5"); ("2024-05-06", "Monday", "May 6");
     ("2024-05-07", "Tuesday", "May 7")]
    ("", "", "").

(** The buckets of [week]. *)
Definition week_buckets : gmap string (list VideoTask.t) :=
  {[ "2024-04-30" := [dated "d1" "2024-04-30" ready; dated "d2" "2024-04-30" published];
     "2024-05-02" := [dated "d3" "2024-05-02" failed; dated "d4" "2024-05-02" published] ]}.

(** A board with a task whose date names a property of [Object.prototype]. *)
Definition odd_board : app (S := gmap string string) :=
  App (Cell [dated "d1" "2024-04-30" ready; dated "d5" "constructor" ready] true ∅ [])
      (initialTaskDraft "2024-05-01") "" "" "" "" None.


(** An upstream that cannot be reached. *)
Definition unreachable (videoUrl caption : string) : JS.completion PublishResponse.t :=
  inl (JS.IsError "fetch failed").

(** What the framework answers when the route throws. *)
Definition internal_error (e : JS.thrown) : fetched :=
  Resolved 500 (inl (JS.IsError "Unexpected token < in JSON at position 0")).

(** A storage that holds the text of the empty array for the tasks. *)
Definition emptied : gmap string string :=
  {[ storage_key := "[]" ]}.

End Samples.

(** * Properties *)

Section home_facts.
Import Planner PersistentState Home.
Context {S : Type} `{Storage S} `{Codec (list VideoTask.t)}.
Implicit Types (a : app (S := S)) (task : VideoTask.t).

Lemma tasks_setTasks update a : tasks (setTasks update a) = update (tasks a).
Proof. reflexivity. Qed.

Lemma tasks_setIsPublishing v a : tasks (setIsPublishing v a) = tasks a.
Proof. reflexivity. Qed.

Lemma tasks_updateTask taskId updates now a :
  tasks (updateTask taskId updates now a) =
  List.map (fun task =>
    if String.eqb (VideoTask.id task) taskId
    then with_updatedAt now (spread task updates) else task) (tasks a).
Proof. reflexivity. Qed.

Lemma lookup_map {A B : Type} (f : A -> B) (l : list A) (i : nat) :
  List.map f l !! i = f <$> (l !! i).
Proof.
  revert i. induction l as [|x l IH]; intros [|i]; simpl; try reflexivity.
  apply IH.
Qed.

Lemma map_unchanged {A : Type} (f : A -> A) (l : list A) :
  (forall x, In x l -> f x = x) -> List.map f l = l.
Proof.
  induction l as [|x l IH]; simpl; intros Hf; [reflexivity|].
  rewrite Hf by (left; reflexivity).
  rewrite IH; [reflexivity|]. intros y Hy. apply Hf. right. exact Hy.
Qed.

Lemma eqb_id_true task taskId :
  String.eqb (VideoTask.id task) taskId = true <-> VideoTask.id task = taskId.
Proof. apply String.eqb_eq. Qed.

Lemma eqb_id_false task taskId :
  String.eqb (VideoTask.id task) taskId = false <-> VideoTask.id task <> taskId.
Proof. apply String.eqb_neq. Qed.

(** What [updateTask] leaves at a position of the collection. *)
Lemma lookup_updateTask taskId updates now a i :
  tasks (updateTask taskId updates now a) !! i =
  (fun task =>
     if String.eqb (VideoTask.id task) taskId
     then with_updatedAt now (spread task updates) else task) <$> (tasks a !! i).
Proof. rewrite tasks_updateTask. apply lookup_map. Qed.

(** C9: [updateTask] keeps the collection's length and positions; the record
    at a position is replaced by its update, with [updatedAt] set to the
    current time, when its id is the given one, and is the same record, in
    every field, when its id is another one. *)
Theorem updateTask_touches_only_the_id taskId updates now a i task :
  tasks a !! i = Some task ->
  length (tasks (updateTask taskId updates now a)) = length (tasks a) /\
  exists task',
    tasks (updateTask taskId updates now a) !! i = Some task' /\
    (VideoTask.id task <> taskId -> task' = task) /\
    (VideoTask.id task = taskId ->
       task' = with_updatedAt now (spread task updates) /\
       VideoTask.updatedAt task' = now).
Proof.
  intros Hi. split.
  - rewrite tasks_updateTask. apply List.length_map.
  - rewrite lookup_updateTask, Hi. simpl.
    destruct (String.eqb (VideoTask.id task) taskId) eqn:E.
    + apply eqb_id_true in E. eexists. split; [reflexivity|].
      split; [intros Hne; contradiction|]. intros _. split; reflexivity.
    + apply eqb_id_false in E. exists task. split; [reflexivity|].
      split; [reflexivity|]. intros Heq; contradiction.
Qed.

Lemma updateTask_absent taskId updates now a :
  (forall task, In task (tasks a) -> VideoTask.id task <> taskId) ->
  tasks (updateTask taskId updates now a) = tasks a.
Proof.
  intros Habsent. rewrite tasks_updateTask. apply map_unchanged.
  intros task Hin. apply Habsent, eqb_id_false in Hin. rewrite Hin. reflexivity.
Qed.

(** C10: when no task of the collection has the given id, [updateTask]
    returns the collection as it was, whatever the updates; so does the
    settling of a publish request for such a task, whatever the response. *)
Theorem updateTask_unknown_id_is_dropped taskId updates now a :
  (forall task, In task (tasks a) -> VideoTask.id task <> taskId) ->
  tasks (updateTask taskId updates now a) = tasks a /\
  forall task response,
    VideoTask.id task = taskId ->
    tasks (handlePublish_settle now task response a) = tasks a.
Proof.
  intros Habsent. split.
  - apply updateTask_absent, Habsent.
  - intros task response <-. unfold handlePublish_settle.
    rewrite tasks_setIsPublishing. apply updateTask_absent, Habsent.
Qed.

(** X29: a task deleted while its publish request is in flight: the attempt
    ends with the collection the deletion alone gives. *)
Lemma handlePublish_deleted_in_flight now0 now1 task network a :
  tasks (handlePublish now0 now1 task network (deleteTask (VideoTask.id task)) a) =
  tasks (deleteTask (VideoTask.id task) a).
Proof.
  unfold handlePublish, handlePublish_request, handlePublish_settle.
  rewrite tasks_setIsPublishing.
  rewrite updateTask_absent.
  - unfold deleteTask. rewrite !tasks_setTasks, tasks_updateTask, tasks_setIsPublishing.
    induction (tasks a) as [|x l IH]; simpl; [reflexivity|].
    destruct (String.eqb (VideoTask.id x) (VideoTask.id task)) eqn:E; simpl.
    + rewrite E. simpl. exact IH.
    + rewrite E. simpl. rewrite IH. reflexivity.
  - intros r Hin. unfold deleteTask in Hin. rewrite tasks_setTasks in Hin.
    apply List.filter_In in Hin as [_ Hne].
    apply eqb_id_false. destruct (String.eqb (VideoTask.id r) (VideoTask.id task)); [discriminate|reflexivity].
Qed.

(** The record [handlePublish] leaves, once the request has settled, where a
    record of the published task was. *)
Lemma settle_record now task response a i r0 s n :
  outcome response = status_and_notes s n ->
  tasks a !! i = Some r0 ->
  VideoTask.id r0 = VideoTask.id task ->
  exists r,
    tasks (handlePublish_settle now task response a) !! i = Some r /\
    VideoTask.status r = s /\ VideoTask.notes r = Some n.
Proof.
  intros Hout Hi Hid. unfold handlePublish_settle.
  rewrite tasks_setIsPublishing, lookup_updateTask, Hi, Hout. simpl.
  apply eqb_id_true in Hid. rewrite Hid.
  eexists. split; [reflexivity|]. split; reflexivity.
Qed.

Lemma handlePublish_unfold now0 now1 task network meanwhile a :
  handlePublish now0 now1 task network meanwhile a =
  handlePublish_settle now1 task (network (request_body task))
    (meanwhile (fst (handlePublish_request now0 task a))).
Proof. reflexivity. Qed.

(** The [else] branch of [handlePublish]: the notes are the body's [message]
    when it has one, and the fallback otherwise. *)
Lemma else_branch_notes result :
  let notes := JS.nullish (JS.get_opt result "message") (JS.JStr "Failed to publish video.") in
  JS.get_opt result "message" = Some notes \/ notes = JS.JStr "Failed to publish video.".
Proof.
  simpl. destruct (JS.get_opt result "message") as [[]|]; simpl; auto.
Qed.

(** Every response other than a confirmed success makes [outcome] a failure,
    with one of the four kinds of notes. *)
Lemma outcome_of_failure response :
  (forall code result, response = Resolved code (inr result) ->
     ok code = false \/ JS.get_opt result "status" <> Some (JS.JStr "success")) ->
  exists reason,
    ((exists code result,
        response = Resolved code (inr result) /\
        JS.get_opt result "message" = Some reason)
     \/ (exists message,
           attempt response = inl (JS.IsError message) /\ reason = JS.JStr message)
     \/ reason = JS.JStr "Failed to publish video."
     \/ reason = JS.JStr "Unexpected error while publishing.") /\
    outcome response = status_and_notes failed reason.
Proof.
  intros Hfail.
  assert (Hcaught : forall e, attempt response = inl e ->
    exists reason,
      ((exists code result,
          response = Resolved code (inr result) /\
          JS.get_opt result "message" = Some reason)
       \/ (exists message,
             attempt response = inl (JS.IsError message) /\ reason = JS.JStr message)
       \/ reason = JS.JStr "Failed to publish video."
       \/ reason = JS.JStr "Unexpected error while publishing.") /\
      outcome response = status_and_notes failed reason).
  { intros e He. unfold outcome. rewrite He. destruct e as [message|]; simpl.
    - exists (JS.JStr message). split; [|reflexivity]. right; left. eauto.
    - eexists. split; [|reflexivity]. auto. }
  assert (Helse : forall code result,
    response = Resolved code (inr result) -> succeeded code result = inr false ->
    exists reason,
      ((exists code result,
          response = Resolved code (inr result) /\
          JS.get_opt result "message" = Some reason)
       \/ (exists message,
             attempt response = inl (JS.IsError message) /\ reason = JS.JStr message)
       \/ reason = JS.JStr "Failed to publish video."
       \/ reason = JS.JStr "Unexpected error while publishing.") /\
      outcome response = status_and_notes failed reason).
  { intros code result -> Hs. unfold outcome, attempt. rewrite Hs.
    eexists. split; [|reflexivity].
    destruct (else_branch_notes result) as [Hm|Hm]; [left; eauto|auto]. }
  destruct response as [e | code [e | result]]; try (apply (Hcaught e); reflexivity).
  destruct (succeeded code result) as [e|[|]] eqn:Hs.
  - apply (Hcaught e). unfold attempt. rewrite Hs. reflexivity.
  - exfalso. unfold succeeded in Hs.
    destruct (Hfail code result eq_refl) as [Hok|Hst]; [rewrite Hok in Hs; discriminate|].
    destruct (ok code); [|discriminate].
    destruct result; simpl in *; try discriminate.
    destruct (JS.assoc "status" members) as [[]|]; try discriminate.
    injection Hs as Hs. apply String.eqb_eq in Hs. subst. apply Hst. reflexivity.
  - apply (Helse code result); [reflexivity|exact Hs].
Qed.

Lemma status_and_notes_notes s n s' n' :
  status_and_notes s n = status_and_notes s' n' -> n = n'.
Proof. intros [= Hn _]. exact Hn. Qed.

(** The [else] branch is the one taken for a parsed body when the response
    is not 2xx, or when the body is not [null] and its [status] is not
    ["success"]. *)
Lemma outcome_of_else_branch code result :
  ok code = false \/ JS.get_opt result "status" <> Some (JS.JStr "success") ->
  ok code = false \/ result <> JS.JNull ->
  outcome (Resolved code (inr result)) =
  status_and_notes failed
    (JS.nullish (JS.get_opt result "message") (JS.JStr "Failed to publish video.")).
Proof.
  intros Hfail Hreach.
  assert (Hs : succeeded code result = inr false).
  { unfold succeeded. destruct (ok code) eqn:Hok; [|reflexivity].
    destruct Hfail as [?|Hst]; [discriminate|].
    destruct Hreach as [?|Hnull]; [discriminate|].
    destruct result; cbn in *; try reflexivity; [contradiction|].
    destruct (JS.assoc "status" members) as [[| | |s| |]|]; try reflexivity.
    destruct (String.eqb s "success") eqn:E; [|reflexivity].
    apply String.eqb_eq in E. subst. exfalso. apply Hst. reflexivity. }
  unfold outcome, attempt. rewrite Hs. reflexivity.
Qed.

(** Reading [status] off the body [null] of a 2xx response throws, and the
    [catch] clause keeps the message of that error. *)
Lemma outcome_of_null_body code :
  ok code = true ->
  outcome (Resolved code (inr JS.JNull)) =
  status_and_notes failed (JS.JStr (JS.cannot_read "status")).
Proof. intros Hok. unfold outcome, attempt, succeeded. rewrite Hok. reflexivity. Qed.

(** C1: when the request throws, or its response is not a 2xx one whose body
    has [status] equal to ["success"], every record of the task in the store
    ends with status [failed] and with the same notes, which are: the
    message of the error, when [fetch] or [response.json()] threw an
    [Error], and also when the body of a 2xx response is [null], so that
    reading its [status] threw one; the text "Unexpected error while
    publishing." when what was thrown is not an [Error]; and otherwise the
    [message] of the response body when it has one that is not [null], and
    the text "Failed to publish video." when it has none. *)
Theorem publish_failure_marks_failed now0 now1 task network meanwhile a :
  (forall code result,
     network (request_body task) = Resolved code (inr result) ->
     ok code = false \/ JS.get_opt result "status" <> Some (JS.JStr "success")) ->
  exists reason,
    ((exists code result,
        network (request_body task) = Resolved code (inr result) /\
        JS.get_opt result "message" = Some reason)
     \/ (exists message,
           attempt (network (request_body task)) = inl (JS.IsError message) /\
           reason = JS.JStr message)
     \/ reason = JS.JStr "Failed to publish video."
     \/ reason = JS.JStr "Unexpected error while publishing.") /\
    (forall message,
       network (request_body task) = Rejected (JS.IsError message) ->
       reason = JS.JStr message) /\
    (forall code message,
       network (request_body task) = Resolved code (inl (JS.IsError message)) ->
       reason = JS.JStr message) /\
    (network (request_body task) = Rejected JS.NotError ->
     reason = JS.JStr "Unexpected error while publishing.") /\
    (forall code,
       network (request_body task) = Resolved code (inl JS.NotError) ->
       reason = JS.JStr "Unexpected error while publishing.") /\
    (forall code,
       network (request_body task) = Resolved code (inr JS.JNull) ->
       ok code = true ->
       reason = JS.JStr (JS.cannot_read "status")) /\
    (forall code result message,
       network (request_body task) = Resolved code (inr result) ->
       ok code = false \/ result <> JS.JNull ->
       JS.get_opt result "message" = Some message ->
       message <> JS.JNull ->
       reason = message) /\
    (forall code result,
       network (request_body task) = Resolved code (inr result) ->
       ok code = false \/ result <> JS.JNull ->
       JS.get_opt result "message" = None \/
       JS.get_opt result "message" = Some JS.JNull ->
       reason = JS.JStr "Failed to publish video.") /\
    forall i r0,
      tasks (meanwhile (fst (handlePublish_request now0 task a))) !! i = Some r0 ->
      VideoTask.id r0 = VideoTask.id task ->
      exists r,
        tasks (handlePublish now0 now1 task network meanwhile a) !! i = Some r /\
        VideoTask.status r = failed /\ VideoTask.notes r = Some reason.
Proof.
  intros Hfail.
  destruct (outcome_of_failure _ Hfail) as (reason & Hreason & Hout).
  exists reason. split; [exact Hreason|].
  repeat match goal with |- _ /\ _ => split end.
  - intros message Hnet. rewrite Hnet in Hout.
    apply status_and_notes_notes in Hout. symmetry. exact Hout.
  - intros code message Hnet. rewrite Hnet in Hout.
    apply status_and_notes_notes in Hout. symmetry. exact Hout.
  - intros Hnet. rewrite Hnet in Hout.
    apply status_and_notes_notes in Hout. symmetry. exact Hout.
  - intros code Hnet. rewrite Hnet in Hout.
    apply status_and_notes_notes in Hout. symmetry. exact Hout.
  - intros code Hnet Hok. rewrite Hnet, (outcome_of_null_body code Hok) in Hout.
    apply status_and_notes_notes in Hout. symmetry. exact Hout.
  - intros code result message Hnet Hreach Hmessage Hnull.
    rewrite Hnet, (outcome_of_else_branch code result (Hfail code result Hnet) Hreach) in Hout.
    apply status_and_notes_notes in Hout. rewrite Hmessage in Hout. subst reason.
    destruct message; try reflexivity. contradiction.
  - intros code result Hnet Hreach Hmessage.
    rewrite Hnet, (outcome_of_else_branch code result (Hfail code result Hnet) Hreach) in Hout.
    apply status_and_notes_notes in Hout. subst reason.
    destruct Hmessage as [-> | ->]; reflexivity.
  - intros i r0 Hi Hid. rewrite handlePublish_unfold.
    eapply settle_record; eauto.
Qed.

(** A 2xx response whose body has [status] equal to ["success"] makes
    [outcome] a publication, with the media id, or ["unknown"], in the notes. *)
Lemma outcome_of_success code result :
  ok code = true ->
  JS.get_opt result "status" = Some (JS.JStr "success") ->
  outcome (Resolved code (inr result)) =
  status_and_notes published
    (JS.JStr ("Published with media id " ++
              JS.to_string (JS.nullish (JS.get_opt result "instagramMediaId")
                                       (JS.JStr "unknown")))).
Proof.
  intros Hok Hst. unfold outcome, attempt, succeeded. rewrite Hok.
  destruct result; simpl in Hst; try discriminate.
  simpl. rewrite Hst. reflexivity.
Qed.


(** C3 (amended): the request body has the task's [videoUrl] as it is; its
    caption is the task's caption and the space-joined hashtags, each left
    out when empty, with a blank line between them when both are there. *)
Theorem request_body_joins_nonempty_parts task :
  let joined := JS.join " " (VideoTask.hashtags task) in
  payload_videoUrl (request_body task) = VideoTask.videoUrl task /\
  (VideoTask.caption task <> "" -> joined <> "" ->
   payload_caption (request_body task) =
   VideoTask.caption task ++ JS.LF ++ JS.LF ++ joined) /\
  (joined = "" -> payload_caption (request_body task) = VideoTask.caption task) /\
  (VideoTask.hashtags task = [] ->
   payload_caption (request_body task) = VideoTask.caption task) /\
  (VideoTask.caption task = "" -> payload_caption (request_body task) = joined).
Proof.
  simpl. unfold outbound_caption.
  destruct (VideoTask.caption task) as [|c cs] eqn:Hc;
    destruct (JS.join " " (VideoTask.hashtags task)) as [|j js] eqn:Hj; simpl;
    repeat split; try reflexivity; try congruence.
  - intros Hh. rewrite Hh in Hj. discriminate.
  - intros Hh. rewrite Hh in Hj. discriminate.
Qed.

(** C5: [saveTaskDraft] appends one task, whose status is [queued] exactly
    when the draft's [autopost] is true, and [ready] exactly when it is
    false. *)
Theorem saveTaskDraft_seeds_status newId now1 now2 today a :
  exists task,
    tasks (saveTaskDraft newId now1 now2 today a) = (tasks a ++ [task])%list /\
    VideoTask.id task = newId /\
    (VideoTask.status task = queued <-> Draft.autopost (draft a) = true) /\
    (VideoTask.status task = ready <-> Draft.autopost (draft a) = false).
Proof.
  exists (newTask (draft a) newId now1 now2).
  split; [reflexivity|]. split; [reflexivity|].
  simpl. destruct (Draft.autopost (draft a)); split; split; congruence.
Qed.

End home_facts.

Section overdue_facts.
Import Planner PersistentState Home.
Context {S : Type} `{Storage S} `{Codec (list VideoTask.t)}.
Variable Date_of : string -> option Z.
Implicit Types (a : app (S := S)) (task : VideoTask.t).

Lemma is_published_false s : is_published s = false <-> s <> published.
Proof. destruct s; simpl; split; congruence. Qed.

Lemma isBefore_true scheduledAt now :
  isBefore scheduledAt now = true <-> exists t, scheduledAt = Some t /\ (t < now)%Z.
Proof.
  destruct scheduledAt as [t|]; simpl.
  - rewrite Z.ltb_lt. split; [eauto|]. intros (t' & [= <-] & Hlt). exact Hlt.
  - split; [discriminate|]. intros (t' & Hn & _). discriminate.
Qed.

(** C4: a task is among the overdue ones exactly when it is in the
    collection, the date its [date] and [time] denote is before the current
    instant, and its status is not [published]; so a task whose date has
    passed is overdue in each of the five other statuses, and a task whose
    date has not passed is not overdue in any status. *)
Theorem overdueTasks_membership now a task :
  (In task (overdueTasks Date_of now a) <->
   In task (tasks a) /\
   (exists t, Date_of (VideoTask.date task ++ "T" ++ VideoTask.time task) = Some t /\
              (t < now)%Z) /\
   VideoTask.status task <> published) /\
  (forall t,
     In task (tasks a) ->
     Date_of (VideoTask.date task ++ "T" ++ VideoTask.time task) = Some t ->
     (t < now)%Z ->
     In (VideoTask.status task) [failed; queued; ready; Planner.draft; publishing] ->
     In task (overdueTasks Date_of now a)) /\
  (forall t,
     Date_of (VideoTask.date task ++ "T" ++ VideoTask.time task) = Some t ->
     (now <= t)%Z ->
     ~ In task (overdueTasks Date_of now a)).
Proof.
  assert (Hiff : In task (overdueTasks Date_of now a) <->
    In task (tasks a) /\
    (exists t, Date_of (VideoTask.date task ++ "T" ++ VideoTask.time task) = Some t /\
               (t < now)%Z) /\
    VideoTask.status task <> published).
  { unfold overdueTasks. rewrite List.filter_In, andb_true_iff, negb_true_iff.
    rewrite isBefore_true, is_published_false. reflexivity. }
  split; [exact Hiff|]. split.
  - intros t Hin Ht Hlt Hst. apply Hiff. split; [exact Hin|]. split; [eauto|].
    intros Hp. rewrite Hp in Hst. simpl in Hst.
    repeat (destruct Hst as [Hst|Hst]; [discriminate|]). exact Hst.
  - intros t Ht Hle Hin. apply Hiff in Hin as (_ & (t' & Ht' & Hlt) & _).
    rewrite Ht in Ht'. injection Ht' as <-. lia.
Qed.

End overdue_facts.

Section storage_facts.
Import Planner PersistentState Home.
Context {S : Type} `{Storage S} `{Codec (list VideoTask.t)}.

(** When the effect's [try] block throws, the state stays the default one
    and one line is logged. *)
Lemma hydrate_caught {T : Type} `{Codec T} key (c : cell S T) e :
  read key c = inl e ->
  hydrate key c =
  Cell (state c) true (localStorage c)
       (console_error c ++ ["Failed to read " ++ key ++ " from localStorage"]).
Proof. intros He. unfold hydrate. rewrite He. reflexivity. Qed.

(** When there is nothing to read, the effect changes [hydrated] only. *)
Lemma hydrate_nothing {T : Type} `{Codec T} key (c : cell S T) :
  read key c = inr c ->
  hydrate key c = Cell (state c) true (localStorage c) (console_error c).
Proof. intros He. unfold hydrate. rewrite He. reflexivity. Qed.

Lemma truthy_nonempty text : text <> "" -> JS.truthy text = true.
Proof. destruct text; [congruence|reflexivity]. Qed.

(** C8: when the storage has nothing under the key (or the empty text), or
    has a text that [JSON.parse] rejects, the hydrated component has the
    empty collection and the storage untouched; the rejected text costs one
    [console.error] line, the component being returned all the same; and
    the next [setTasks] sets the collection and writes it to the storage. *)
Theorem start_falls_back_to_empty today (storage : S) :
  getItem storage storage_key = inr None \/
  getItem storage storage_key = inr (Some "") \/
  (exists text e,
     getItem storage storage_key = inr (Some text) /\ text <> "" /\
     parse text = inl e) ->
  tasks (start today storage) = [] /\
  hydrated (store (start today storage)) = true /\
  localStorage (store (start today storage)) = storage /\
  ((exists text e,
      getItem storage storage_key = inr (Some text) /\ text <> "" /\
      parse text = inl e) ->
   console_error (store (start today storage)) =
   ["Failed to read daily-video-agent-tasks from localStorage"]) /\
  forall update,
    tasks (setTasks update (start today storage)) = update [] /\
    forall text storage',
      stringify (update []) = inr text ->
      setItem storage storage_key text = inr storage' ->
      localStorage (store (setTasks update (start today storage))) = storage'.
Proof.
  intros Hcase.
  assert (Hstart :
    store (start today storage) = Cell [] true storage [] \/
    store (start today storage) =
      Cell [] true storage ["Failed to read daily-video-agent-tasks from localStorage"]).
  { unfold start, usePersistentState. simpl store.
    destruct Hcase as [Hn | [Hn | (text & e & Hn & Hne & Hp)]].
    - left. rewrite hydrate_nothing; [reflexivity|].
      unfold read, mount. simpl. rewrite Hn. reflexivity.
    - left. rewrite hydrate_nothing; [reflexivity|].
      unfold read, mount. simpl. rewrite Hn. reflexivity.
    - right. rewrite (hydrate_caught _ _ e); [reflexivity|].
      unfold read, mount. simpl. rewrite Hn, (truthy_nonempty _ Hne), Hp. reflexivity. }
  assert (Hstate : tasks (start today storage) = [] /\
                   hydrated (store (start today storage)) = true /\
                   localStorage (store (start today storage)) = storage).
  { unfold tasks. destruct Hstart as [-> | ->]; repeat split. }
  destruct Hstate as (Ht & Hh & Hl).
  split; [exact Ht|]. split; [exact Hh|]. split; [exact Hl|]. split.
  - intros (text & e & Hn & Hne & Hp).
    unfold start, usePersistentState. simpl store.
    rewrite (hydrate_caught _ _ e); [reflexivity|].
    unfold read, mount. simpl. rewrite Hn, (truthy_nonempty _ Hne), Hp. reflexivity.
  - intros update. rewrite tasks_setTasks, Ht. split; [reflexivity|].
    intros text storage' Hs Hset.
    unfold setTasks. cbn [store].
    destruct Hstart as [-> | ->]; unfold updateState, persist;
      cbn [state localStorage]; rewrite Hs, Hset; reflexivity.
Qed.

End storage_facts.

Section route_facts.
Import Planner Route.
Variable publishVideo : string -> string -> JS.completion PublishResponse.t.

(** C6, at the body [null]: reading [body.videoUrl] throws outside the
    [try], so [POST] rejects instead of answering 400; [publishVideo] is not
    called. *)
Theorem POST_null_body_throws :
  run publishVideo (POST (inr JS.JNull)) =
  ([], inl (JS.IsError (JS.cannot_read "videoUrl"))).
Proof. reflexivity. Qed.

(** X27: [POST] answers 400 to a body that is not JSON, and to an object whose
    [videoUrl] or [caption] is left out, [null] or blank while the other is
    left out, [null] or a string; it never calls [publishVideo] then. *)
Lemma POST_rejects_blank_fields request_json :
  (exists e, request_json = inl e) \/
  (exists members videoUrl caption,
     request_json = inr (JS.JObj members) /\
     JS.trim_opt "body.videoUrl" (JS.assoc "videoUrl" members) = inr videoUrl /\
     JS.trim_opt "body.caption" (JS.assoc "caption" members) = inr caption /\
     (JS.falsy videoUrl = true \/ JS.falsy caption = true)) ->
  exists message,
    run publishVideo (POST request_json) = ([], inr (Json (error_body message) 400)) /\
    In message ["Invalid JSON body received.";
                "Provide a publicly accessible videoUrl.";
                "Caption cannot be empty."].
Proof.
  intros [(e & ->) | (members & videoUrl & caption & -> & Hv & Hc & Hblank)].
  - eexists. split; [reflexivity|]. simpl. auto.
  - unfold POST, trimmed_fields. cbn [JS.get]. rewrite Hv, Hc.
    destruct (JS.falsy videoUrl) eqn:Ev.
    + eexists. split; [reflexivity|]. simpl. auto.
    + destruct Hblank as [?|Hcap]; [discriminate|]. rewrite Hcap.
      eexists. split; [reflexivity|]. simpl. auto.
Qed.

(** C7: for a body whose [videoUrl] and [caption] are strings that are not
    blank, [POST] calls [publishVideo] once, with the trimmed strings, and
    answers with what it resolved to as the body: with status 200 when that
    has [status] equal to ["success"], with status 502 otherwise. *)
Theorem POST_relays_upstream_result members rawUrl rawCaption r :
  JS.assoc "videoUrl" members = Some (JS.JStr rawUrl) ->
  JS.assoc "caption" members = Some (JS.JStr rawCaption) ->
  JS.trim rawUrl <> "" ->
  JS.trim rawCaption <> "" ->
  publishVideo (JS.trim rawUrl) (JS.trim rawCaption) = inr r ->
  exists response,
    run publishVideo (POST (inr (JS.JObj members))) =
      ([(JS.trim rawUrl, JS.trim rawCaption)], inr response) /\
    body response = r /\
    (PublishResponse.status r = "success" -> status response = 200%Z) /\
    (PublishResponse.status r <> "success" -> status response = 502%Z).
Proof.
  intros Hv Hc Hvne Hcne Hup.
  unfold POST, trimmed_fields. cbn [JS.get]. rewrite Hv, Hc. cbn [JS.trim_opt].
  unfold JS.falsy.
  destruct (JS.trim rawUrl) as [|u us] eqn:Eu; [congruence|].
  destruct (JS.trim rawCaption) as [|c cs] eqn:Ec; [congruence|].
  simpl. rewrite Hup. eexists. split; [reflexivity|]. split; [reflexivity|].
  simpl. split.
  - intros ->. reflexivity.
  - intros Hne. apply String.eqb_neq in Hne. rewrite Hne. reflexivity.
Qed.

(** X28: when [publishVideo] rejects, so does [POST], after that one call. *)
Lemma POST_upstream_rejection members rawUrl rawCaption e :
  JS.assoc "videoUrl" members = Some (JS.JStr rawUrl) ->
  JS.assoc "caption" members = Some (JS.JStr rawCaption) ->
  JS.trim rawUrl <> "" ->
  JS.trim rawCaption <> "" ->
  publishVideo (JS.trim rawUrl) (JS.trim rawCaption) = inl e ->
  run publishVideo (POST (inr (JS.JObj members))) =
  ([(JS.trim rawUrl, JS.trim rawCaption)], inl e).
Proof.
  intros Hv Hc Hvne Hcne Hup.
  unfold POST, trimmed_fields. cbn [JS.get]. rewrite Hv, Hc. cbn [JS.trim_opt].
  unfold JS.falsy.
  destruct (JS.trim rawUrl) as [|u us] eqn:Eu; [congruence|].
  destruct (JS.trim rawCaption) as [|c cs] eqn:Ec; [congruence|].
  simpl. rewrite Hup. reflexivity.
Qed.

End route_facts.

(** ** The properties at concrete inputs *)

Section instances.
Import Planner PersistentState Home Samples.

Lemma publish_failure_marks_failed_witness :
  exists r,
    tasks (handlePublish "t0" "t1" (reel "a1" queued) rate_limited (fun a => a) board) !! 0
      = Some r /\
    VideoTask.status r = failed /\
    VideoTask.notes r = Some (JS.JStr "rate limited").
Proof.
  destruct (publish_failure_marks_failed "t0" "t1" (reel "a1" queued)
              rate_limited (fun a => a) board)
    as (reason & _ & _ & _ & _ & _ & _ & Hmessage & _ & Hrecord).
  - intros code result [= <- <-]. left. reflexivity.
  - destruct (Hrecord 0 _ eq_refl eq_refl) as (r & Hr & Hstatus & Hnotes).
    exists r. split; [exact Hr|]. split; [exact Hstatus|].
    rewrite Hnotes. f_equal.
    apply (Hmessage 502%Z _ (JS.JStr "rate limited") eq_refl);
      [left; reflexivity|reflexivity|discriminate].
Defined.


Lemma request_body_joins_nonempty_parts_witness :
  payload_caption (request_body (reel "a1" queued)) =
  "Day 5 mobility flow" ++ JS.LF ++ JS.LF ++ "#mobility #reels".
Proof.
  apply (proj1 (proj2 (request_body_joins_nonempty_parts (reel "a1" queued))));
    simpl; discriminate.
Defined.

(** C3 as stated fails for a task with hashtags and no caption text: the
    caption sent is the hashtags alone, without the blank line before them. *)
Lemma request_body_blank_caption_counterexample :
  VideoTask.hashtags bare_reel <> [] /\
  payload_caption (request_body bare_reel) = "#reels" /\
  payload_caption (request_body bare_reel) <>
  VideoTask.caption bare_reel ++ JS.LF ++ JS.LF ++
  JS.join " " (VideoTask.hashtags bare_reel).
Proof.
  split; [discriminate|]. split; [reflexivity|]. vm_compute. discriminate.
Qed.

Lemma overdueTasks_membership_witness :
  In (reel "a1" queued) (overdueTasks calendar_date noon board).
Proof.
  apply (proj1 (proj2 (overdueTasks_membership calendar_date noon board (reel "a1" queued)))
           1714557600000%Z).
  - simpl. left. reflexivity.
  - reflexivity.
  - reflexivity.
  - simpl. right. left. reflexivity.
Defined.

Lemma start_falls_back_to_empty_witness :
  tasks (start "2024-05-01" corrupted) = [] /\
  console_error (store (start "2024-05-01" corrupted)) =
  ["Failed to read daily-video-agent-tasks from localStorage"].
Proof.
  assert (Hcorrupt : exists text e,
            getItem corrupted storage_key = inr (Some text) /\ text <> "" /\
            parse text = inl e).
  { exists "{not json", (JS.IsError "Unexpected token in JSON").
    split; [reflexivity|]. split; [discriminate|reflexivity]. }
  destruct (start_falls_back_to_empty "2024-05-01" corrupted
              (or_intror (or_intror Hcorrupt))) as (Htasks & _ & _ & Hlog & _).
  split; [exact Htasks|]. apply Hlog, Hcorrupt.
Defined.

Lemma updateTask_touches_only_the_id_witness :
  exists task',
    tasks (updateTask "a1" (status_only published) "t1" board) !! 0 = Some task' /\
    task' = with_updatedAt "t1" (spread (reel "a1" queued) (status_only published)) /\
    tasks (updateTask "a1" (status_only published) "t1" board) !! 1
      = Some (reel "b2" ready).
Proof.
  destruct (updateTask_touches_only_the_id "a1" (status_only published) "t1" board
              0 (reel "a1" queued) eq_refl) as (_ & task' & Hlookup & _ & Hsame).
  destruct (updateTask_touches_only_the_id "a1" (status_only published) "t1" board
              1 (reel "b2" ready) eq_refl) as (_ & other & Hother & Hkept & _).
  exists task'. split; [exact Hlookup|]. split.
  - apply Hsame. reflexivity.
  - rewrite Hother, Hkept; [reflexivity|discriminate].
Defined.

Lemma updateTask_unknown_id_is_dropped_witness :
  tasks (updateTask "zz" (status_only failed) "t1" board) = tasks board.
Proof.
  apply (updateTask_unknown_id_is_dropped "zz" (status_only failed) "t1" board).
  intros task [<- | [<- | []]]; discriminate.
Defined.

Lemma POST_relays_upstream_result_witness :
  exists response,
    Route.run publishes (Route.POST (inr (JS.JObj publish_request))) =
      ([("https://cdn.example/day5.mp4", "Day 5 mobility flow")], inr response) /\
    Route.status response = 200%Z.
Proof.
  destruct (POST_relays_upstream_result publishes publish_request
              " https://cdn.example/day5.mp4 " "Day 5 mobility flow"
              (PublishResponse.mk "success" "Video published." (Some "m123") None)
              eq_refl eq_refl)
    as (response & Hrun & _ & H200 & _).
  - vm_compute. discriminate.
  - vm_compute. discriminate.
  - reflexivity.
  - exists response. split; [exact Hrun|]. apply H200. reflexivity.
Defined.

(** The overdue tasks of [week] at noon of 2024-05-01: of the two tasks of
    the day before, the one that is not published; none of the day after. *)
Example overdueTasks_week :
  overdueTasks calendar_date noon week = [dated "d1" "2024-04-30" ready].
Proof. reflexivity. Qed.

(** The body [{"videoUrl": ""}] is answered 400, without a call upstream. *)
Example POST_blank_videoUrl :
  Route.run publishes (Route.POST (inr (JS.JObj [("videoUrl", JS.JStr "")]))) =
  ([], inr (Route.Json (Route.error_body "Provide a publicly accessible videoUrl.") 400%Z)).
Proof. reflexivity. Qed.

(** A [videoUrl] alone is answered 400 for the caption. *)
Example POST_missing_caption :
  Route.run publishes
    (Route.POST (inr (JS.JObj [("videoUrl", JS.JStr "https://cdn.example/day5.mp4")]))) =
  ([], inr (Route.Json (Route.error_body "Caption cannot be empty.") 400%Z)).
Proof. reflexivity. Qed.

(** A number for a caption makes [POST] throw before it tests [videoUrl]. *)
Example POST_numeric_caption :
  Route.run publishes (Route.POST (inr (JS.JObj [("caption", JS.JNum "5")]))) =
  ([], inl (JS.IsError "body.caption?.trim is not a function")).
Proof. reflexivity. Qed.

(** Saving the initial draft, which has [autopost] set, queues a task. *)
Example saveTaskDraft_board :
  VideoTask.status <$> tasks (saveTaskDraft "n9" "t0" "t0" "2024-05-01" board) =
  [queued; ready; queued].
Proof. reflexivity. Qed.

(** What is written can be read back: the component started on the storage
    left by a [setTasks] hydrates from the text written. *)
Example setTasks_then_start :
  localStorage (store (setTasks (fun _ => []) (start "2024-05-01" corrupted))) !! storage_key
    = Some "[]" /\
  console_error
    (store (start "2024-05-02"
              (localStorage (store (setTasks (fun _ => []) (start "2024-05-01" corrupted))))))
    = [].
Proof. split; reflexivity. Qed.

End instances.

(** * Further properties *)

(** ** Trimming and splitting *)

Section string_facts.

Lemma append_cons (c : ascii) (s t : string) : String c s ++ t = String c (s ++ t).
Proof. reflexivity. Qed.

Lemma append_empty_l (t : string) : "" ++ t = t.
Proof. reflexivity. Qed.

Lemma append_empty_r (s : string) : s ++ "" = s.
Proof.
  induction s as [|c s IH]; [reflexivity|]. rewrite append_cons, IH. reflexivity.
Qed.

Lemma append_assoc (s t u : string) : (s ++ t) ++ u = s ++ (t ++ u).
Proof.
  induction s as [|c s IH]; [reflexivity|]. rewrite !append_cons, IH. reflexivity.
Qed.

Lemma rev_app_append (s t : string) : String.rev_app s t = String.rev s ++ t.
Proof.
  unfold String.rev. revert t. induction s as [|c s IH]; intros t; [reflexivity|].
  cbn [String.rev_app]. rewrite IH, (IH (String c "")), append_assoc. reflexivity.
Qed.

Lemma rev_cons (c : ascii) (s : string) :
  String.rev (String c s) = String.rev s ++ String c "".
Proof. unfold String.rev at 1. cbn [String.rev_app]. apply rev_app_append. Qed.

Lemma rev_append (s t : string) : String.rev (s ++ t) = String.rev t ++ String.rev s.
Proof.
  induction s as [|c s IH].
  - change (String.rev "") with "". rewrite append_empty_l, append_empty_r. reflexivity.
  - rewrite append_cons, !rev_cons, IH, append_assoc. reflexivity.
Qed.

Lemma rev_involutive (s : string) : String.rev (String.rev s) = s.
Proof.
  induction s as [|c s IH]; [reflexivity|].
  rewrite rev_cons, rev_append, IH. reflexivity.
Qed.

Lemma rev_empty (s : string) : String.rev s = "" -> s = "".
Proof. intros Hs. rewrite <- (rev_involutive s), Hs. reflexivity. Qed.

Lemma trim_start_append (s t : string) :
  JS.trim_start (s ++ t) =
  match JS.trim_start s with
  | EmptyString => JS.trim_start t
  | String c rest => String c rest ++ t
  end.
Proof.
  induction s as [|c s IH]; [reflexivity|].
  rewrite append_cons. cbn [JS.trim_start].
  destruct (JS.is_white_space c); [exact IH|reflexivity].
Qed.

(** [trim_end] from the left: a character stays when something stays after
    it, or when it is not white space. *)
Lemma trim_end_cons (c : ascii) (s : string) :
  JS.trim_end (String c s) =
  match JS.trim_end s with
  | EmptyString => if JS.is_white_space c then "" else String c ""
  | String d rest => String c (String d rest)
  end.
Proof.
  unfold JS.trim_end. rewrite rev_cons, trim_start_append.
  destruct (JS.trim_start (String.rev s)) as [|d rest] eqn:E.
  - change (String.rev "") with "". cbn [JS.trim_start].
    destruct (JS.is_white_space c); reflexivity.
  - rewrite rev_append.
    destruct (String.rev (String d rest)) as [|d' rest'] eqn:E'.
    + apply rev_empty in E'. discriminate.
    + reflexivity.
Qed.

Lemma trim_end_empty : JS.trim_end "" = "".
Proof. reflexivity. Qed.

Lemma trim_end_idempotent (s : string) : JS.trim_end (JS.trim_end s) = JS.trim_end s.
Proof.
  induction s as [|c s IH]; [reflexivity|].
  rewrite trim_end_cons. destruct (JS.trim_end s) as [|d rest] eqn:E.
  - destruct (JS.is_white_space c) eqn:Ec; [reflexivity|].
    rewrite trim_end_cons, trim_end_empty, Ec. reflexivity.
  - rewrite trim_end_cons, IH. reflexivity.
Qed.

Lemma trim_start_clean (s : string) : JS.starts_clean (JS.trim_start s).
Proof.
  induction s as [|c s IH]; [exact I|]. cbn [JS.trim_start].
  destruct (JS.is_white_space c) eqn:E; [exact IH|exact E].
Qed.

Lemma trim_start_of_clean (s : string) : JS.starts_clean s -> JS.trim_start s = s.
Proof. destruct s as [|c s]; [reflexivity|]. cbn. intros ->. reflexivity. Qed.

Lemma trim_end_clean (s : string) : JS.starts_clean s -> JS.starts_clean (JS.trim_end s).
Proof.
  destruct s as [|c s]; [intros _; exact I|]. cbn [JS.starts_clean]. intros Hc.
  rewrite trim_end_cons. destruct (JS.trim_end s); [rewrite Hc|]; exact Hc.
Qed.

Lemma trim_idempotent (s : string) : JS.trim (JS.trim s) = JS.trim s.
Proof.
  unfold JS.trim.
  rewrite (trim_start_of_clean (JS.trim_end (JS.trim_start s))).
  - apply trim_end_idempotent.
  - apply trim_end_clean, trim_start_clean.
Qed.

Lemma spaceless_cons (c : ascii) (s : string) :
  JS.spaceless (String c s) = true <->
  JS.is_white_space c = false /\ JS.spaceless s = true.
Proof. cbn [JS.spaceless]. rewrite andb_true_iff, negb_true_iff. reflexivity. Qed.

Lemma trim_spaceless (s : string) : JS.spaceless s = true -> JS.trim s = s.
Proof.
  intros Hs. unfold JS.trim. rewrite trim_start_of_clean.
  - induction s as [|c s IH]; [reflexivity|].
    apply spaceless_cons in Hs as [Hc Hs].
    rewrite trim_end_cons, (IH Hs). destruct s; [rewrite Hc|]; reflexivity.
  - destruct s as [|c s]; [exact I|].
    apply spaceless_cons in Hs as [Hc _]. exact Hc.
Qed.

Lemma truthy_iff (s : string) : JS.truthy s = true <-> s <> "".
Proof. destruct s; cbn; split; congruence. Qed.

Lemma trim_after_space (s : string) : JS.trim (String " " s) = JS.trim s.
Proof. reflexivity. Qed.

Lemma without_cons (sep c : ascii) (s : string) :
  JS.without sep (String c s) = true <->
  Ascii.eqb c sep = false /\ JS.without sep s = true.
Proof. cbn [JS.without]. rewrite andb_true_iff, negb_true_iff. reflexivity. Qed.

Lemma without_trim_start (sep : ascii) (s : string) :
  JS.without sep s = true -> JS.without sep (JS.trim_start s) = true.
Proof.
  induction s as [|c s IH]; [intros _; reflexivity|]. intros Hs.
  cbn [JS.trim_start]. destruct (JS.is_white_space c); [|exact Hs].
  apply without_cons in Hs as [_ Hs]. exact (IH Hs).
Qed.

Lemma without_trim_end (sep : ascii) (s : string) :
  JS.without sep s = true -> JS.without sep (JS.trim_end s) = true.
Proof.
  induction s as [|c s IH]; [intros _; reflexivity|]. intros Hs.
  apply without_cons in Hs as [Hc Hs]. rewrite trim_end_cons.
  specialize (IH Hs). destruct (JS.trim_end s) as [|d rest].
  - destruct (JS.is_white_space c); [reflexivity|].
    apply without_cons. split; [exact Hc|reflexivity].
  - apply without_cons. split; [exact Hc|exact IH].
Qed.

Lemma without_trim (sep : ascii) (s : string) :
  JS.without sep s = true -> JS.without sep (JS.trim s) = true.
Proof. intros Hs. apply without_trim_end, without_trim_start, Hs. Qed.

Lemma split_on_nonempty (sep : ascii) (s : string) : JS.split_on sep s <> [].
Proof.
  destruct s as [|c s]; cbn [JS.split_on]; [discriminate|].
  destruct (Ascii.eqb c sep); [discriminate|].
  destruct (JS.split_on sep s); discriminate.
Qed.

(** No piece of a split has the separator in it. *)
Lemma split_on_pieces (sep : ascii) (s piece : string) :
  In piece (JS.split_on sep s) -> JS.without sep piece = true.
Proof.
  revert piece. induction s as [|c s IH]; intros piece; cbn [JS.split_on].
  - intros [<- | []]. reflexivity.
  - destruct (Ascii.eqb c sep) eqn:Ec.
    + intros [<- | Hin]; [reflexivity|]. apply IH, Hin.
    + destruct (JS.split_on sep s) as [|first others].
      * intros [<- | []]. apply without_cons. split; [exact Ec|reflexivity].
      * intros [<- | Hin].
        -- apply without_cons. split; [exact Ec|]. apply IH. left. reflexivity.
        -- apply IH. right. exact Hin.
Qed.

Lemma split_on_without (sep : ascii) (s : string) :
  JS.without sep s = true -> JS.split_on sep s = [s].
Proof.
  induction s as [|c s IH]; [reflexivity|]. intros Hs.
  apply without_cons in Hs as [Hc Hs]. cbn [JS.split_on]. rewrite Hc, (IH Hs).
  reflexivity.
Qed.

Lemma split_on_append (sep : ascii) (s rest : string) :
  JS.without sep s = true ->
  JS.split_on sep (s ++ String sep rest) = s :: JS.split_on sep rest.
Proof.
  induction s as [|c s IH]; intros Hs.
  - rewrite append_empty_l. cbn [JS.split_on]. rewrite Ascii.eqb_refl. reflexivity.
  - apply without_cons in Hs as [Hc Hs]. rewrite append_cons. cbn [JS.split_on].
    rewrite Hc, (IH Hs). reflexivity.
Qed.

(** No piece between runs of white space has white space in it. *)
Lemma split_spaces_pieces (s piece : string) :
  In piece (JS.split_spaces s) -> JS.spaceless piece = true.
Proof.
  revert piece. induction s as [|c s IH]; intros piece; cbn [JS.split_spaces].
  - intros [<- | []]. reflexivity.
  - destruct (JS.is_white_space c) eqn:Ec.
    + destruct s as [|c' s'].
      * intros [<- | Hin]; [reflexivity|]. apply IH, Hin.
      * destruct (JS.is_white_space c').
        -- apply IH.
        -- intros [<- | Hin]; [reflexivity|]. apply IH, Hin.
    + destruct (JS.split_spaces s) as [|first others].
      * intros [<- | []]. apply spaceless_cons. split; [exact Ec|reflexivity].
      * intros [<- | Hin].
        -- apply spaceless_cons. split; [exact Ec|]. apply IH. left. reflexivity.
        -- apply IH. right. exact Hin.
Qed.

Lemma filter_all {A : Type} (f : A -> bool) (l : list A) :
  (forall x, In x l -> f x = true) -> List.filter f l = l.
Proof.
  induction l as [|x l IH]; intros Hall; [reflexivity|]. cbn [List.filter].
  rewrite (Hall x) by (left; reflexivity). rewrite IH; [reflexivity|].
  intros y Hy. apply Hall. right. exact Hy.
Qed.

Lemma map_id_on {A : Type} (f : A -> A) (l : list A) :
  (forall x, In x l -> f x = x) -> List.map f l = l.
Proof.
  induction l as [|x l IH]; intros Hall; [reflexivity|]. cbn [List.map].
  rewrite (Hall x) by (left; reflexivity). rewrite IH; [reflexivity|].
  intros y Hy. apply Hall. right. exact Hy.
Qed.

Lemma join_single (sep x : string) : JS.join sep [x] = x.
Proof. reflexivity. Qed.

Lemma join_cons (sep x y : string) (l : list string) :
  JS.join sep (x :: y :: l) = x ++ sep ++ JS.join sep (y :: l).
Proof. reflexivity. Qed.

(** Splitting the text that [join(", ")] makes of tags that are trimmed and
    have no comma, after a blank or not, and trimming the pieces, gives the
    tags back. *)
Lemma split_join_tags (tags : list string) (pad : string) :
  tags <> [] ->
  (forall tag, In tag tags -> JS.trim tag = tag /\ JS.without "," tag = true) ->
  pad = "" \/ pad = " " ->
  List.map JS.trim (JS.split_on "," (pad ++ JS.join ", " tags)) = tags.
Proof.
  revert pad. induction tags as [|tag tags IH]; intros pad Hne Hall Hpad; [congruence|].
  destruct (Hall tag (or_introl eq_refl)) as [Htrim Hcomma].
  assert (Hpadded : JS.trim (pad ++ tag) = tag /\ JS.without "," (pad ++ tag) = true).
  { destruct Hpad as [-> | ->]; rewrite ?append_empty_l; [auto|].
    rewrite append_cons, append_empty_l, trim_after_space. split; [exact Htrim|].
    apply without_cons. split; [reflexivity|exact Hcomma]. }
  destruct Hpadded as [Hptrim Hpcomma].
  destruct tags as [|next tags].
  - rewrite join_single.
    rewrite (split_on_without _ _ Hpcomma). cbn [List.map]. rewrite Hptrim. reflexivity.
  - rewrite join_cons, <- append_assoc.
    change (", " ++ JS.join ", " (next :: tags))
      with (String "," (" " ++ JS.join ", " (next :: tags))).
    rewrite (split_on_append _ _ _ Hpcomma). cbn [List.map]. rewrite Hptrim. f_equal.
    apply IH; [discriminate| |right; reflexivity].
    intros t Ht. apply Hall. right. exact Ht.
Qed.

End string_facts.

(** ** The staging form *)

Section form_facts.
Import Planner PersistentState Home.
Context {S : Type} `{Storage S} `{Codec (list VideoTask.t)}.
Variable generateCaption : CaptionInput.t -> string.
Implicit Types (a : app (S := S)) (task : VideoTask.t).

Lemma normalized_tags (raw : list string) (tag : string) :
  In tag (List.filter JS.truthy (List.map JS.trim raw)) ->
  tag <> "" /\ JS.trim tag = tag /\ exists r, In r raw /\ tag = JS.trim r.
Proof.
  intros Hin. apply List.filter_In in Hin as [Hin Htruthy].
  apply List.in_map_iff in Hin as (r & <- & Hr).
  split; [apply truthy_iff, Htruthy|]. split; [apply trim_idempotent|eauto].
Qed.

(** X1: every hashtag the form's input gives is a piece of the text between
    commas, trimmed; it is not empty, has no white space at either end and
    no comma. *)
Theorem hashtags_onChange_normalizes text a tag :
  In tag (Draft.hashtags (draft (hashtags_onChange text a))) ->
  tag <> "" /\ JS.trim tag = tag /\ JS.without "," tag = true /\
  exists piece, In piece (JS.split_on "," text) /\ tag = JS.trim piece.
Proof.
  cbn. unfold hashtags_of_input. intros Hin.
  destruct (normalized_tags _ _ Hin) as (Hne & Htrim & piece & Hpiece & ->).
  split; [exact Hne|]. split; [exact Htrim|]. split; [|eauto].
  apply without_trim, (split_on_pieces _ text), Hpiece.
Qed.

Lemma hashtags_of_input_join (tags : list string) :
  (forall tag, In tag tags ->
     tag <> "" /\ JS.trim tag = tag /\ JS.without "," tag = true) ->
  hashtags_of_input (JS.join ", " tags) = tags.
Proof.
  intros Hall. unfold hashtags_of_input. destruct tags as [|tag tags]; [reflexivity|].
  rewrite <- (append_empty_l (JS.join ", " (tag :: tags))).
  rewrite split_join_tags; [|discriminate| |left; reflexivity].
  - apply filter_all. intros t Ht. apply truthy_iff, (Hall t Ht).
  - intros t Ht. destruct (Hall t Ht) as (_ & Htrim & Hcomma). auto.
Qed.

(** X2: when the draft's hashtags are not empty, are trimmed and have no
    comma, feeding the input's own value back through its [onChange] leaves
    them as they are. *)
Theorem hashtags_value_round_trip a :
  (forall tag, In tag (Draft.hashtags (draft a)) ->
     tag <> "" /\ JS.trim tag = tag /\ JS.without "," tag = true) ->
  Draft.hashtags (draft (hashtags_onChange (hashtags_value a) a)) =
  Draft.hashtags (draft a).
Proof. intros Hall. cbn. unfold hashtags_value. apply hashtags_of_input_join, Hall. Qed.

Lemma startsWith_hash (word : string) :
  JS.startsWith "#" word = true <-> exists rest, word = String "#" rest.
Proof.
  unfold JS.startsWith. destruct word as [|c rest]; cbn [String.prefix].
  - split; [discriminate|]. intros (r & Hr). discriminate.
  - destruct (ascii_dec "#" c) as [<- | Hne].
    + split; [eauto|]. destruct rest; reflexivity.
    + split; [discriminate|]. intros (r & [= Hc _]). congruence.
Qed.

(** The hashtags of a caption are its words that begin with [#], as they
    are: trimming changes none of them. *)
Lemma hashtags_of_caption_words (output : string) :
  hashtags_of_caption output =
  List.filter (JS.startsWith "#") (JS.split_spaces output).
Proof.
  unfold hashtags_of_caption. apply map_id_on. intros word Hin.
  apply List.filter_In in Hin as [Hin _].
  apply trim_spaceless, (split_spaces_pieces output), Hin.
Qed.

(** X3: after [handleCaptionGenerate] the draft's hashtags are exactly the
    words of the draft's new caption that begin with [#]; each has [#] first
    and no white space. *)
Theorem handleCaptionGenerate_takes_hash_words a tag :
  (In tag (Draft.hashtags (draft (handleCaptionGenerate generateCaption a))) <->
   In tag (JS.split_spaces (Draft.caption (draft (handleCaptionGenerate generateCaption a)))) /\
   JS.startsWith "#" tag = true) /\
  (In tag (Draft.hashtags (draft (handleCaptionGenerate generateCaption a))) ->
   (exists rest, tag = String "#" rest) /\ JS.spaceless tag = true).
Proof.
  cbn. rewrite hashtags_of_caption_words, List.filter_In. split; [reflexivity|].
  intros [Hin Hhash]. split; [apply startsWith_hash, Hhash|].
  eapply split_spaces_pieces, Hin.
Qed.

(** X4: the task [saveTaskDraft] appends has hashtags that are not empty and
    have no white space at either end, each the trimmed form of one of the
    draft's; a draft whose hashtags are all so already keeps them as they
    are. *)
Theorem saveTaskDraft_normalizes_hashtags newId now1 now2 today a :
  exists task,
    tasks (saveTaskDraft newId now1 now2 today a) = (tasks a ++ [task])%list /\
    (forall tag, In tag (VideoTask.hashtags task) ->
       tag <> "" /\ JS.trim tag = tag /\
       exists raw, In raw (Draft.hashtags (draft a)) /\ tag = JS.trim raw) /\
    ((forall raw, In raw (Draft.hashtags (draft a)) -> raw <> "" /\ JS.trim raw = raw) ->
     VideoTask.hashtags task = Draft.hashtags (draft a)).
Proof.
  exists (newTask (draft a) newId now1 now2). split; [reflexivity|]. split.
  - intros tag Hin. apply normalized_tags, Hin.
  - intros Hall. cbn. rewrite map_id_on by (intros raw Hraw; apply Hall, Hraw).
    apply filter_all. intros raw Hraw. apply truthy_iff, Hall, Hraw.
Qed.

(** X5: generating a caption and saving the draft appends a task with that
    caption and with its words that begin with [#] as hashtags. *)
Theorem generate_then_save newId now1 now2 today a :
  let generated := handleCaptionGenerate generateCaption a in
  exists task,
    tasks (saveTaskDraft newId now1 now2 today generated) = (tasks a ++ [task])%list /\
    VideoTask.caption task = Draft.caption (draft generated) /\
    VideoTask.hashtags task =
    List.filter (JS.startsWith "#") (JS.split_spaces (VideoTask.caption task)).
Proof.
  cbn zeta. exists (newTask (draft (handleCaptionGenerate generateCaption a)) newId now1 now2).
  split; [reflexivity|]. split; [reflexivity|].
  cbn. rewrite hashtags_of_caption_words.
  rewrite map_id_on, filter_all; [reflexivity| |].
  - intros word Hin. apply List.filter_In in Hin as [_ Hhash].
    apply startsWith_hash in Hhash as (rest & ->). reflexivity.
  - intros word Hin. apply List.filter_In in Hin as [Hin _].
    apply trim_spaceless, (split_spaces_pieces _ _ Hin).
Qed.

End form_facts.

(** ** The persistent state hook *)

Section hook_facts.
Import PersistentState.
Context {S T : Type} `{Storage S} `{Codec T}.
Implicit Types (c : cell S T).

(** X6: the effect of the hook never writes to the storage and always ends
    with [hydrated] set; it leaves the state and the log as they were, or
    sets the state to what the stored text parses to, or logs one line. *)
Theorem hydrate_reads_only key c :
  localStorage (hydrate key c) = localStorage c /\
  hydrated (hydrate key c) = true /\
  ((state (hydrate key c) = state c /\ console_error (hydrate key c) = console_error c) \/
   (exists text,
      getItem (localStorage c) key = inr (Some text) /\
      parse text = inr (state (hydrate key c)) /\
      console_error (hydrate key c) = console_error c) \/
   (state (hydrate key c) = state c /\
    console_error (hydrate key c) =
    (console_error c ++ [("Failed to read " ++ key ++ " from localStorage")%string])%list)).
Proof.
  unfold hydrate, read.
  destruct (getItem (localStorage c) key) as [e | [text|]] eqn:Hget; cbn.
  - repeat split. right; right. split; reflexivity.
  - destruct (JS.truthy text); [|repeat split; left; split; reflexivity].
    destruct (parse text) as [e | v] eqn:Hparse; cbn.
    + repeat split. right; right. split; reflexivity.
    + repeat split. right; left. exists text. repeat split. exact Hparse.
  - repeat split. left. split; reflexivity.
Qed.

(** X7: a stored text that is not empty and that parses becomes the state,
    without a log line. *)
Theorem hydrate_loads_stored_value key c text v :
  getItem (localStorage c) key = inr (Some text) ->
  text <> "" ->
  parse text = inr v ->
  hydrate key c = Cell v true (localStorage c) (console_error c).
Proof.
  intros Hget Hne Hparse. unfold hydrate, read.
  rewrite Hget, (proj2 (truthy_iff text) Hne), Hparse. reflexivity.
Qed.

(** X8: when [getItem] throws, the state stays as it was, one line is
    logged, and [hydrated] is set all the same. *)
Theorem hydrate_survives_getItem key c e :
  getItem (localStorage c) key = inl e ->
  hydrate key c =
  Cell (state c) true (localStorage c)
       (console_error c ++ [("Failed to read " ++ key ++ " from localStorage")%string])%list.
Proof. intros Hget. unfold hydrate, read. rewrite Hget. reflexivity. Qed.

(** X9: when [JSON.stringify] or [setItem] throws, [updateState] still sets
    the state to the next value; the storage stays as it was and one line is
    logged. *)
Theorem updateState_survives_write_failure key update c e :
  let nextValue := match update with inr f => f (state c) | inl v => v end in
  persist key nextValue (localStorage c) = inl e ->
  updateState key update c =
  Cell nextValue (hydrated c) (localStorage c)
       (console_error c ++ [("Failed to persist " ++ key ++ " to localStorage")%string])%list.
Proof. cbn zeta. intros Hp. unfold updateState. rewrite Hp. reflexivity. Qed.

End hook_facts.

Section memory_facts.
Import PersistentState.
Context {T : Type} `{Codec T}.
Implicit Types (c : cell (gmap string string) T).

(** X10: on a storage held in memory, [updateState] leaves under the key the
    text of the next value and touches no other key; the hook mounted on
    that storage afterwards has the next value as its state, when the text
    is not empty and parses back to the value. *)
Theorem updateState_then_reload key update c text defaultValue :
  let nextValue := match update with inr f => f (state c) | inl v => v end in
  stringify nextValue = inr text ->
  localStorage (updateState key update c) !! key = Some text /\
  (forall other, other <> key ->
     localStorage (updateState key update c) !! other = localStorage c !! other) /\
  (text <> "" -> parse text = inr nextValue ->
   usePersistentState key defaultValue (localStorage (updateState key update c)) =
   Cell nextValue true (localStorage (updateState key update c)) []).
Proof.
  cbn zeta. intros Hs.
  assert (Hstore : localStorage (updateState key update c) = <[key := text]> (localStorage c)).
  { unfold updateState, persist. rewrite Hs. reflexivity. }
  rewrite Hstore. split; [apply lookup_insert_eq|]. split.
  - intros other Hne. apply lookup_insert_ne. congruence.
  - intros Hne Hparse. unfold usePersistentState, hydrate, read, mount. cbn.
    rewrite lookup_insert_eq, (proj2 (truthy_iff text) Hne), Hparse. reflexivity.
Qed.

End memory_facts.

(** ** The task collection *)

Section collection_facts.
Import Planner PersistentState Home.
Context {S : Type} `{Storage S} `{Codec (list VideoTask.t)}.
Implicit Types (a : app (S := S)) (task : VideoTask.t).

Lemma tasks_deleteTask taskId a :
  tasks (deleteTask taskId a) =
  List.filter (fun task => negb (String.eqb (VideoTask.id task) taskId)) (tasks a).
Proof. reflexivity. Qed.

Lemma kept_iff task taskId :
  negb (String.eqb (VideoTask.id task) taskId) = true <-> VideoTask.id task <> taskId.
Proof. rewrite negb_true_iff. apply eqb_id_false. Qed.

(** X11: [deleteTask] removes every task with the given id and no other: a
    task is in the collection afterwards exactly when it was before and has
    another id. *)
Theorem deleteTask_membership taskId a task :
  In task (tasks (deleteTask taskId a)) <->
  In task (tasks a) /\ VideoTask.id task <> taskId.
Proof. rewrite tasks_deleteTask, List.filter_In, kept_iff. reflexivity. Qed.

(** X12: deleting an id that no task has leaves the collection as it was;
    hence deleting twice is deleting once. *)
Theorem deleteTask_absent taskId a :
  ((forall task, In task (tasks a) -> VideoTask.id task <> taskId) ->
   tasks (deleteTask taskId a) = tasks a) /\
  tasks (deleteTask taskId (deleteTask taskId a)) = tasks (deleteTask taskId a).
Proof.
  assert (Habsent : forall b : app,
    (forall task, In task (tasks b) -> VideoTask.id task <> taskId) ->
    tasks (deleteTask taskId b) = tasks b).
  { intros b Hb. rewrite tasks_deleteTask. apply filter_all.
    intros task Hin. apply kept_iff, Hb, Hin. }
  split; [apply Habsent|]. apply Habsent.
  intros task Hin. rewrite tasks_deleteTask in Hin.
  apply List.filter_In in Hin as [_ Hkept]. apply kept_iff, Hkept.
Qed.

(** X13: saving a draft under an id that no task has, and deleting that id,
    gives the collection back. *)
Theorem saveTaskDraft_then_deleteTask newId now1 now2 today a :
  (forall task, In task (tasks a) -> VideoTask.id task <> newId) ->
  tasks (deleteTask newId (saveTaskDraft newId now1 now2 today a)) = tasks a.
Proof.
  intros Hfresh. rewrite tasks_deleteTask.
  change (tasks (saveTaskDraft newId now1 now2 today a))
    with (tasks a ++ [newTask (draft a) newId now1 now2])%list.
  rewrite List.filter_app. cbn [List.filter VideoTask.id newTask].
  rewrite String.eqb_refl. cbn [negb]. rewrite app_nil_r.
  apply filter_all. intros task Hin. apply kept_iff, Hfresh, Hin.
Qed.

Lemma succeeded_true code result :
  succeeded code result = inr true <->
  ok code = true /\ JS.get_opt result "status" = Some (JS.JStr "success").
Proof.
  unfold succeeded. destruct (ok code); [|split; [discriminate|intros [? _]; discriminate]].
  destruct result; cbn; try (split; [discriminate|intros [_ ?]; discriminate]).
  destruct (JS.assoc "status" members) as [[| | |s| |]|];
    try (split; [discriminate|intros [_ ?]; discriminate]).
  split.
  - intros [= Hs]. apply String.eqb_eq in Hs. subst. auto.
  - intros [_ [= ->]]. reflexivity.
Qed.

(** [outcome] always sets a status and notes: [published] for a confirmed
    success, [failed] for every other response. *)
Lemma outcome_shape response :
  exists s n,
    outcome response = status_and_notes s n /\
    (s = failed \/
     s = published /\
     exists code result,
       response = Resolved code (inr result) /\ ok code = true /\
       JS.get_opt result "status" = Some (JS.JStr "success")).
Proof.
  assert (Hfailure :
    (forall code result, response = Resolved code (inr result) ->
       ok code = false \/ JS.get_opt result "status" <> Some (JS.JStr "success")) ->
    exists s n, outcome response = status_and_notes s n /\
      (s = failed \/
       s = published /\
       exists code result,
         response = Resolved code (inr result) /\ ok code = true /\
         JS.get_opt result "status" = Some (JS.JStr "success"))).
  { intros Hfail. destruct (outcome_of_failure response Hfail) as (reason & _ & Hout).
    exists failed, reason. auto. }
  destruct response as [e | code [e | result]]; try (apply Hfailure; discriminate).
  destruct (succeeded code result) as [e | [|]] eqn:Hs.
  - apply Hfailure. intros code' result' [= <- <-].
    destruct (ok code) eqn:Hok; [right|left; reflexivity].
    intros Hst. rewrite (proj2 (succeeded_true code result)) in Hs by auto. discriminate.
  - apply succeeded_true in Hs as [Hok Hst].
    eexists published, _. split; [apply outcome_of_success; assumption|].
    right. split; [reflexivity|]. eauto.
  - apply Hfailure. intros code' result' [= <- <-].
    destruct (ok code) eqn:Hok; [right|left; reflexivity].
    intros Hst. rewrite (proj2 (succeeded_true code result)) in Hs by auto. discriminate.
Qed.

(** X14: whatever the response and whatever happens while the request is in
    flight, every record of the task ends [failed] or [published], so none
    stays [publishing]; and it ends [published] only for a 2xx response
    whose body has [status] equal to ["success"]. *)
Theorem handlePublish_ends_failed_or_published now0 now1 task network meanwhile a i r0 :
  tasks (meanwhile (fst (handlePublish_request now0 task a))) !! i = Some r0 ->
  VideoTask.id r0 = VideoTask.id task ->
  exists r,
    tasks (handlePublish now0 now1 task network meanwhile a) !! i = Some r /\
    (VideoTask.status r = failed \/ VideoTask.status r = published) /\
    (VideoTask.status r = published ->
     exists code result,
       network (request_body task) = Resolved code (inr result) /\
       ok code = true /\
       JS.get_opt result "status" = Some (JS.JStr "success")).
Proof.
  intros Hi Hid. rewrite handlePublish_unfold.
  destruct (outcome_shape (network (request_body task))) as (s & n & Hout & Hs).
  destruct (settle_record now1 task _ _ i r0 s n Hout Hi Hid) as (r & Hr & Hstatus & _).
  exists r. split; [exact Hr|]. rewrite Hstatus.
  destruct Hs as [-> | [-> Hsuccess]].
  - split; [left; reflexivity|discriminate].
  - split; [right; reflexivity|]. intros _. exact Hsuccess.
Qed.

(** X15: a publish attempt during which nothing else happens keeps the
    length of the collection and every record of another id; of a record of
    the task it changes [status], [notes] and [updatedAt] only. *)
Theorem handlePublish_frame now0 now1 task network a i r0 :
  tasks a !! i = Some r0 ->
  length (tasks (handlePublish now0 now1 task network (fun b => b) a)) = length (tasks a) /\
  exists r,
    tasks (handlePublish now0 now1 task network (fun b => b) a) !! i = Some r /\
    (VideoTask.id r0 <> VideoTask.id task -> r = r0) /\
    VideoTask.id r = VideoTask.id r0 /\
    VideoTask.date r = VideoTask.date r0 /\
    VideoTask.time r = VideoTask.time r0 /\
    VideoTask.title r = VideoTask.title r0 /\
    VideoTask.caption r = VideoTask.caption r0 /\
    VideoTask.hashtags r = VideoTask.hashtags r0 /\
    VideoTask.videoUrl r = VideoTask.videoUrl r0 /\
    VideoTask.autopost r = VideoTask.autopost r0 /\
    VideoTask.createdAt r = VideoTask.createdAt r0 /\
    (VideoTask.id r0 = VideoTask.id task -> VideoTask.updatedAt r = now1).
Proof.
  intros Hi. rewrite handlePublish_unfold.
  unfold handlePublish_settle, handlePublish_request. cbn [fst].
  rewrite tasks_setIsPublishing, !tasks_updateTask, tasks_setIsPublishing.
  split; [rewrite !List.length_map; reflexivity|].
  rewrite !lookup_map, Hi. cbn [fmap option_fmap option_map].
  destruct (outcome_shape (network (request_body task))) as (s & n & -> & _).
  destruct (String.eqb (VideoTask.id r0) (VideoTask.id task)) eqn:E.
  - cbn. rewrite E. eexists. split; [reflexivity|].
    apply eqb_id_true in E. split; [intros Hne; contradiction|].
    cbn. repeat split.
  - rewrite E. exists r0. split; [reflexivity|].
    apply eqb_id_false in E. repeat split. intros Heq. contradiction.
Qed.

End collection_facts.

(** ** The overdue list *)

Section overdue_more.
Import Planner PersistentState Home.
Context {S : Type} `{Storage S} `{Codec (list VideoTask.t)}.
Variable Date_of : string -> option Z.
Implicit Types (a : app (S := S)) (task : VideoTask.t).

(** Whether a task counts as overdue, as the filter of [overdueTasks] tests. *)
Lemma overdue_iff now a task :
  In task (overdueTasks Date_of now a) <->
  In task (tasks a) /\
  isBefore (Date_of (VideoTask.date task ++ "T" ++ VideoTask.time task)) now = true /\
  VideoTask.status task <> published.
Proof.
  unfold overdueTasks. rewrite List.filter_In, andb_true_iff, negb_true_iff.
  rewrite is_published_false. reflexivity.
Qed.

Lemma isBefore_later scheduledAt now later :
  (now <= later)%Z -> isBefore scheduledAt now = true -> isBefore scheduledAt later = true.
Proof.
  destruct scheduledAt as [t|]; cbn; [|discriminate].
  rewrite !Z.ltb_lt. lia.
Qed.

(** X16: a task that is overdue at an instant is overdue at every later
    instant, as long as the collection is the same. *)
Theorem overdueTasks_grows now later a task :
  (now <= later)%Z ->
  In task (overdueTasks Date_of now a) ->
  In task (overdueTasks Date_of later a).
Proof.
  intros Hle Hin. apply overdue_iff in Hin as (Hin & Hbefore & Hstatus).
  apply overdue_iff. split; [exact Hin|]. split; [|exact Hstatus].
  eapply isBefore_later; eassumption.
Qed.

(** The records of a collection after [updateTask]. *)
Lemma in_updateTask taskId updates now a r :
  In r (tasks (updateTask taskId updates now a)) <->
  exists r0,
    In r0 (tasks a) /\
    r = if String.eqb (VideoTask.id r0) taskId
        then with_updatedAt now (spread r0 updates) else r0.
Proof.
  rewrite tasks_updateTask, List.in_map_iff. split.
  - intros (r0 & <- & Hin). eauto.
  - intros (r0 & Hin & ->). eauto.
Qed.


(** X18: after a publish attempt answered otherwise, a record of the task
    that was overdue while the request was in flight is replaced by a record
    that is overdue, with status [failed]. *)
Theorem failed_task_stays_overdue now0 now1 task network meanwhile a now r0 :
  (forall code result,
     network (request_body task) = Resolved code (inr result) ->
     ok code = false \/ JS.get_opt result "status" <> Some (JS.JStr "success")) ->
  VideoTask.id r0 = VideoTask.id task ->
  In r0 (overdueTasks Date_of now (meanwhile (fst (handlePublish_request now0 task a)))) ->
  exists r,
    In r (overdueTasks Date_of now (handlePublish now0 now1 task network meanwhile a)) /\
    VideoTask.id r = VideoTask.id task /\
    VideoTask.status r = failed /\
    VideoTask.date r = VideoTask.date r0 /\ VideoTask.time r = VideoTask.time r0.
Proof.
  intros Hfail Hid Hin. apply overdue_iff in Hin as (Hin & Hbefore & _).
  destruct (outcome_of_failure _ Hfail) as (reason & _ & Hout).
  exists (with_updatedAt now1 (spread r0 (status_and_notes failed reason))).
  split; [|repeat split; exact Hid].
  apply overdue_iff. split; [|split; [exact Hbefore|discriminate]].
  rewrite handlePublish_unfold. unfold handlePublish_settle.
  rewrite tasks_setIsPublishing. apply in_updateTask. exists r0. split; [exact Hin|].
  rewrite Hout, (proj2 (eqb_id_true r0 (VideoTask.id task)) Hid). reflexivity.
Qed.

(** X19: "Reset to ready" on a task of the overdue list leaves it on the
    list: its record is overdue afterwards, with status [ready]. *)
Theorem reset_to_ready_stays_overdue now stamp a task :
  In task (overdueTasks Date_of now a) ->
  exists r,
    In r (overdueTasks Date_of now (reset_to_ready task stamp a)) /\
    VideoTask.id r = VideoTask.id task /\
    VideoTask.status r = ready /\
    VideoTask.updatedAt r = stamp.
Proof.
  intros Hin. apply overdue_iff in Hin as (Hin & Hbefore & _).
  exists (with_updatedAt stamp (spread task (status_only ready))).
  split; [|repeat split].
  apply overdue_iff. split; [|split; [exact Hbefore|discriminate]].
  unfold reset_to_ready. apply in_updateTask. exists task. split; [exact Hin|].
  rewrite String.eqb_refl. reflexivity.
Qed.

End overdue_more.

(** ** Day buckets *)

Section sort_facts.
Context {A : Type} (compare : A -> A -> Z).

Lemma sort_insert_permutation (x : A) (l : list A) :
  Permutation (JS.sort_insert compare x l) (x :: l).
Proof.
  induction l as [|y l IH]; cbn [JS.sort_insert]; [reflexivity|].
  destruct (0 <? compare y x)%Z; [reflexivity|].
  rewrite IH. apply perm_swap.
Qed.

Lemma fold_insert_permutation (l sorted : list A) :
  Permutation
    (List.fold_left (fun sorted x => JS.sort_insert compare x sorted) l sorted)
    (sorted ++ l).
Proof.
  revert sorted. induction l as [|x l IH]; intros sorted; cbn [List.fold_left].
  - rewrite app_nil_r. reflexivity.
  - rewrite IH, sort_insert_permutation. apply Permutation_middle.
Qed.

Lemma sort_permutation (l : list A) : Permutation (JS.sort compare l) l.
Proof. unfold JS.sort. apply (fold_insert_permutation l []). Qed.

(** The comparator never puts one element after another both ways round. *)
Hypothesis compare_asymmetric :
  forall x y, (0 < compare y x)%Z -> (compare x y <= 0)%Z.

Lemma sort_insert_sorted (x : A) (l : list A) :
  Sorted (fun a b => (compare a b <= 0)%Z) l ->
  Sorted (fun a b => (compare a b <= 0)%Z) (JS.sort_insert compare x l).
Proof.
  induction l as [|y l IH]; intros Hl; cbn [JS.sort_insert].
  - repeat constructor.
  - destruct (0 <? compare y x)%Z eqn:E.
    + apply Z.ltb_lt in E. constructor; [exact Hl|]. constructor.
      apply compare_asymmetric, E.
    + apply Z.ltb_ge in E. inversion Hl as [|? ? Hsorted Hhd]; subst.
      constructor; [apply IH, Hsorted|].
      destruct l as [|z l]; cbn [JS.sort_insert].
      * constructor. exact E.
      * destruct (0 <? compare z x)%Z; constructor; [exact E|].
        inversion Hhd; subst. assumption.
Qed.

Lemma sort_sorted (l : list A) :
  Sorted (fun a b => (compare a b <= 0)%Z) (JS.sort compare l).
Proof.
  unfold JS.sort.
  assert (Hfold : forall sorted,
    Sorted (fun a b => (compare a b <= 0)%Z) sorted ->
    Sorted (fun a b => (compare a b <= 0)%Z)
      (List.fold_left (fun sorted x => JS.sort_insert compare x sorted) l sorted)).
  { induction l as [|x l IH]; intros sorted Hs; cbn [List.fold_left]; [exact Hs|].
    apply IH, sort_insert_sorted, Hs. }
  apply Hfold. constructor.
Qed.

(** What the comparator does not put after is transitive. *)
Hypothesis compare_transitive :
  forall x y z, (compare x y <= 0)%Z -> (compare y z <= 0)%Z -> (compare x z <= 0)%Z.

Lemma sort_strongly_sorted (l : list A) :
  StronglySorted (fun a b => (compare a b <= 0)%Z) (JS.sort compare l).
Proof.
  apply Sorted_StronglySorted; [|apply sort_sorted].
  intros x y z. apply compare_transitive.
Qed.

End sort_facts.

Section bucket_facts.
Import Planner PersistentState Home.
Context {S : Type} `{Storage S} `{Codec (list VideoTask.t)}.
Variable localeCompare : string -> string -> Z.
Implicit Types (a : app (S := S)) (task : VideoTask.t)
               (acc grouped : gmap string (list VideoTask.t)).

(** The steps of the [reduce] over a list of tasks, from an accumulator. *)
Lemma groupedTasks_unfold a :
  groupedTasks localeCompare a =
  List.fold_left
    (fun sofar task =>
       match sofar with
       | inl e => inl e
       | inr buckets => group localeCompare buckets task
       end)
    (tasks a) (inr ∅).
Proof. reflexivity. Qed.

Lemma reduce_thrown (l : list VideoTask.t) (e : JS.thrown) :
  List.fold_left
    (fun sofar task =>
       match sofar with
       | inl e => inl e
       | inr buckets => group localeCompare buckets task
       end)
    l (inl e) = inl e.
Proof. induction l as [|task l IH]; [reflexivity|exact IH]. Qed.

(** A step that does not throw: the bucket of the task's date gains the
    task and is sorted, the other buckets stay. *)
Lemma lookup_group acc task acc' d :
  group localeCompare acc task = inr acc' ->
  acc' !! d =
  if String.eqb (VideoTask.date task) d
  then Some (JS.sort (fun x y => localeCompare (VideoTask.time x) (VideoTask.time y))
               (default [] (acc !! d) ++ [task]))
  else acc !! d.
Proof.
  unfold group. intros Hstep.
  destruct (String.eqb (VideoTask.date task) d) eqn:E.
  - apply String.eqb_eq in E. subst d.
    destruct (acc !! VideoTask.date task) as [bucket|].
    + injection Hstep as <-. apply lookup_insert_eq.
    + destruct (JS.inherited (VideoTask.date task)); [discriminate|].
      injection Hstep as <-. apply lookup_insert_eq.
  - apply String.eqb_neq in E.
    destruct (acc !! VideoTask.date task) as [bucket|].
    + injection Hstep as <-. apply lookup_insert_ne. exact E.
    + destruct (JS.inherited (VideoTask.date task)); [discriminate|].
      injection Hstep as <-. apply lookup_insert_ne. exact E.
Qed.

Lemma group_returns acc task :
  JS.inherited (VideoTask.date task) = false ->
  exists acc', group localeCompare acc task = inr acc'.
Proof.
  intros Hd. unfold group. destruct (acc !! VideoTask.date task); [eauto|].
  rewrite Hd. eauto.
Qed.

Lemma group_throws acc task :
  acc !! VideoTask.date task = None ->
  JS.inherited (VideoTask.date task) = true ->
  group localeCompare acc task =
  inl (JS.IsError (JS.not_a_function "acc[task.date].push")).
Proof. intros Hn Hd. unfold group. rewrite Hn, Hd. reflexivity. Qed.

(** The bucket of a date after the [reduce] has run over more tasks: what
    it had, and the tasks of that date. *)
Lemma fold_group_bucket (l : list VideoTask.t) acc grouped d :
  List.fold_left
    (fun sofar task =>
       match sofar with
       | inl e => inl e
       | inr buckets => group localeCompare buckets task
       end)
    l (inr acc) = inr grouped ->
  Permutation
    (default [] (grouped !! d))
    (default [] (acc !! d) ++ List.filter (fun task => String.eqb (VideoTask.date task) d) l).
Proof.
  revert acc. induction l as [|task l IH]; intros acc; cbn [List.fold_left List.filter].
  - intros [= <-]. rewrite app_nil_r. reflexivity.
  - destruct (group localeCompare acc task) as [e|acc'] eqn:Hstep.
    + rewrite reduce_thrown. discriminate.
    + intros Hfold. rewrite (IH _ Hfold), (lookup_group _ _ _ d Hstep).
      destruct (String.eqb (VideoTask.date task) d); [|reflexivity].
      cbn. rewrite sort_permutation, <- app_assoc. reflexivity.
Qed.

Lemma fold_group_none (l : list VideoTask.t) acc grouped d :
  List.fold_left
    (fun sofar task =>
       match sofar with
       | inl e => inl e
       | inr buckets => group localeCompare buckets task
       end)
    l (inr acc) = inr grouped ->
  (grouped !! d = None <->
   acc !! d = None /\ forall task, In task l -> VideoTask.date task <> d).
Proof.
  revert acc. induction l as [|task l IH]; intros acc; cbn [List.fold_left].
  - intros [= <-].
    split; [intros Hn; split; [exact Hn|intros ? []]|intros [Hn _]; exact Hn].
  - destruct (group localeCompare acc task) as [e|acc'] eqn:Hstep.
    + rewrite reduce_thrown. discriminate.
    + intros Hfold. rewrite (IH _ Hfold), (lookup_group _ _ _ d Hstep).
      destruct (String.eqb (VideoTask.date task) d) eqn:E.
      * apply String.eqb_eq in E. split; [intros [Hn _]; discriminate|].
        intros [_ Hall]. exfalso. apply (Hall task); [left; reflexivity|exact E].
      * apply String.eqb_neq in E. split.
        -- intros [Hn Hall]. split; [exact Hn|].
           intros t [<- | Ht]; [exact E|apply Hall, Ht].
        -- intros [Hn Hall]. split; [exact Hn|]. intros t Ht. apply Hall. right. exact Ht.
Qed.

Lemma fold_group_returns (l : list VideoTask.t) acc :
  (forall task, In task l -> JS.inherited (VideoTask.date task) = false) ->
  exists grouped,
    List.fold_left
      (fun sofar task =>
         match sofar with
         | inl e => inl e
         | inr buckets => group localeCompare buckets task
         end)
      l (inr acc) = inr grouped.
Proof.
  revert acc. induction l as [|task l IH]; intros acc Hall; cbn [List.fold_left]; [eauto|].
  destruct (group_returns acc task) as (acc' & ->); [apply Hall; left; reflexivity|].
  apply IH. intros t Ht. apply Hall. right. exact Ht.
Qed.

Lemma fold_group_throws (l : list VideoTask.t) acc :
  (forall d, JS.inherited d = true -> acc !! d = None) ->
  (exists task, In task l /\ JS.inherited (VideoTask.date task) = true) ->
  List.fold_left
    (fun sofar task =>
       match sofar with
       | inl e => inl e
       | inr buckets => group localeCompare buckets task
       end)
    l (inr acc) = inl (JS.IsError (JS.not_a_function "acc[task.date].push")).
Proof.
  revert acc. induction l as [|task l IH]; intros acc Hacc (bad & Hin & Hbad);
    cbn [List.fold_left]; [destruct Hin|].
  destruct (JS.inherited (VideoTask.date task)) eqn:Hd.
  - rewrite (group_throws acc task (Hacc _ Hd) Hd). apply reduce_thrown.
  - destruct Hin as [-> | Hin]; [congruence|].
    destruct (group_returns acc task Hd) as (acc' & Hstep). rewrite Hstep.
    apply IH; [|eauto].
    intros d Hinh. rewrite (lookup_group _ _ _ d Hstep).
    destruct (String.eqb (VideoTask.date task) d) eqn:E; [|apply Hacc, Hinh].
    apply String.eqb_eq in E. congruence.
Qed.

(** X20: [groupedTasks] throws, at the [push], when a task has a date that
    names a property of [Object.prototype], and returns when no task has.
    In what it returns, the bucket of a date holds the tasks of that date,
    each as many times as the collection has it, and no other task; a date
    has no bucket exactly when no task has it, so no bucket is empty. *)
Theorem groupedTasks_buckets a :
  ((exists task, In task (tasks a) /\ JS.inherited (VideoTask.date task) = true) ->
   groupedTasks localeCompare a =
   inl (JS.IsError (JS.not_a_function "acc[task.date].push"))) /\
  ((forall task, In task (tasks a) -> JS.inherited (VideoTask.date task) = false) ->
   exists grouped, groupedTasks localeCompare a = inr grouped) /\
  (forall grouped d,
     groupedTasks localeCompare a = inr grouped ->
     Permutation (default [] (grouped !! d))
                 (List.filter (fun task => String.eqb (VideoTask.date task) d) (tasks a)) /\
     (grouped !! d = None <->
      forall task, In task (tasks a) -> VideoTask.date task <> d) /\
     grouped !! d <> Some []).
Proof.
  rewrite groupedTasks_unfold. split; [|split].
  - apply fold_group_throws. intros d _. apply lookup_empty.
  - apply fold_group_returns.
  - intros grouped d Hgrouped.
    assert (Hperm := fold_group_bucket (tasks a) ∅ grouped d Hgrouped).
    assert (Hnone := fold_group_none (tasks a) ∅ grouped d Hgrouped).
    rewrite lookup_empty in Hperm, Hnone. cbn in Hperm.
    split; [exact Hperm|]. split.
    + rewrite Hnone.
      split; [intros [_ Hall]; exact Hall|intros Hall; split; [reflexivity|exact Hall]].
    + intros Hempty. rewrite Hempty in Hperm. cbn in Hperm.
      apply Permutation_nil in Hperm.
      assert (Hno : grouped !! d = None).
      { apply Hnone. split; [reflexivity|]. intros task Hin Hd.
        assert (Hf : In task (List.filter
                                (fun task => String.eqb (VideoTask.date task) d) (tasks a))).
        { apply List.filter_In. split; [exact Hin|]. apply String.eqb_eq, Hd. }
        rewrite Hperm in Hf. destruct Hf. }
      rewrite Hno in Hempty. discriminate.
Qed.

Lemma fold_group_sorted (l : list VideoTask.t) acc grouped :
  (forall x y, (0 < localeCompare y x)%Z -> (localeCompare x y <= 0)%Z) ->
  (forall x y z, (localeCompare x y <= 0)%Z -> (localeCompare y z <= 0)%Z ->
                 (localeCompare x z <= 0)%Z) ->
  (forall d bucket, acc !! d = Some bucket ->
     StronglySorted
       (fun x y => (localeCompare (VideoTask.time x) (VideoTask.time y) <= 0)%Z) bucket) ->
  List.fold_left
    (fun sofar task =>
       match sofar with
       | inl e => inl e
       | inr buckets => group localeCompare buckets task
       end)
    l (inr acc) = inr grouped ->
  forall d bucket,
    grouped !! d = Some bucket ->
    StronglySorted
      (fun x y => (localeCompare (VideoTask.time x) (VideoTask.time y) <= 0)%Z) bucket.
Proof.
  intros Hcmp Htrans. revert acc.
  induction l as [|task l IH]; intros acc Hacc; cbn [List.fold_left].
  - intros [= <-]. exact Hacc.
  - destruct (group localeCompare acc task) as [e|acc'] eqn:Hstep.
    + rewrite reduce_thrown. discriminate.
    + apply IH. intros d bucket. rewrite (lookup_group _ _ _ d Hstep).
      destruct (String.eqb (VideoTask.date task) d); [|apply Hacc].
      intros [= <-].
      apply (sort_strongly_sorted
               (fun x y => localeCompare (VideoTask.time x) (VideoTask.time y))).
      * intros x y. apply Hcmp.
      * intros x y z. apply Htrans.
Qed.

(** X21: when [localeCompare] orders the times consistently (it never puts
    one after another both ways round, and what it does not put after is
    transitive), every bucket of what [groupedTasks] returns is in the order
    of the times: no task of a bucket comes before one whose time
    [localeCompare] puts before its own. *)
Theorem groupedTasks_sorted a grouped d bucket :
  (forall x y, (0 < localeCompare y x)%Z -> (localeCompare x y <= 0)%Z) ->
  (forall x y z, (localeCompare x y <= 0)%Z -> (localeCompare y z <= 0)%Z ->
                 (localeCompare x z <= 0)%Z) ->
  groupedTasks localeCompare a = inr grouped ->
  grouped !! d = Some bucket ->
  StronglySorted
    (fun x y => (localeCompare (VideoTask.time x) (VideoTask.time y) <= 0)%Z) bucket.
Proof.
  intros Hcmp Htrans Hgrouped.
  apply (fold_group_sorted (tasks a) ∅ grouped Hcmp Htrans); [|exact Hgrouped].
  intros d' bucket'. rewrite lookup_empty. discriminate.
Qed.

(** X22: in a render where [groupedTasks] returns, and for a [today] that
    names no property of [Object.prototype], the streak reads "On Track"
    exactly when a task dated today is published. *)
Theorem streak_on_track today a grouped :
  groupedTasks localeCompare a = inr grouped ->
  JS.inherited today = false ->
  (streak today grouped = "On Track" <->
   exists task,
     In task (tasks a) /\ VideoTask.date task = today /\
     VideoTask.status task = published).
Proof.
  intros Hgrouped _.
  assert (Hperm := fold_group_bucket (tasks a) ∅ grouped today Hgrouped).
  rewrite lookup_empty in Hperm. cbn in Hperm.
  unfold streak.
  destruct (grouped !! today) as [bucket|] eqn:Hb; cbn in Hperm.
  - destruct (List.existsb _ bucket) eqn:Hex.
    + split; [intros _|reflexivity].
      apply List.existsb_exists in Hex as (task & Hin & Hpub).
      rewrite Hperm in Hin. apply List.filter_In in Hin as [Hin Hd].
      exists task. split; [exact Hin|]. split; [apply String.eqb_eq, Hd|].
      destruct (VideoTask.status task); try discriminate. reflexivity.
    + split; [discriminate|]. intros (task & Hin & Hd & Hpub). exfalso.
      assert (Hex' : List.existsb (fun t => is_published (VideoTask.status t)) bucket = true).
      { apply List.existsb_exists. exists task. split; [|rewrite Hpub; reflexivity].
        rewrite Hperm. apply List.filter_In. split; [exact Hin|].
        apply String.eqb_eq, Hd. }
      rewrite Hex' in Hex. discriminate.
  - split; [discriminate|]. intros (task & Hin & Hd & _). exfalso.
    assert (Hf : In task (List.filter
                            (fun task => String.eqb (VideoTask.date task) today) (tasks a))).
    { apply List.filter_In. split; [exact Hin|]. apply String.eqb_eq, Hd. }
    apply Permutation_nil in Hperm. rewrite Hperm in Hf. destruct Hf.
Qed.

(** X23: in a render where [groupedTasks] returns, [upcomingDays] has seven
    days; the day at an index has the id, label and display of the calendar
    for that index, and, the id naming no property of [Object.prototype],
    for its tasks the tasks of the collection whose date is that id. *)
Theorem upcomingDays_days calendar a grouped index :
  groupedTasks localeCompare a = inr grouped ->
  index < 7 ->
  JS.inherited (fst (fst (calendar index))) = false ->
  length (upcomingDays calendar grouped) = 7 /\
  exists day,
    upcomingDays calendar grouped !! index = Some day /\
    (Day.id day, Day.label day, Day.display day) = calendar index /\
    Permutation (Day.tasks day)
      (List.filter (fun task => String.eqb (VideoTask.date task) (Day.id day)) (tasks a)).
Proof.
  intros Hgrouped Hindex _. split; [reflexivity|].
  unfold upcomingDays. rewrite lookup_map.
  assert (Hseq : List.seq 0 7 !! index = Some index).
  { do 7 (destruct index as [|index]; [reflexivity|]). lia. }
  rewrite Hseq. cbn [fmap option_fmap option_map].
  destruct (calendar index) as [[id label] display].
  eexists. split; [reflexivity|]. split; [reflexivity|].
  cbn [Day.tasks Day.id].
  assert (Hperm := fold_group_bucket (tasks a) ∅ grouped id Hgrouped).
  rewrite lookup_empty in Hperm. exact Hperm.
Qed.

End bucket_facts.

(** ** The route, for every request *)

Section route_more.
Import Planner Route.
Variable publishVideo : string -> string -> JS.completion PublishResponse.t.

Lemma trim_opt_trimmed path v out s :
  JS.trim_opt path v = inr out -> out = Some s -> JS.trim s = s.
Proof.
  intros Hv ->. destruct v as [[| | |raw| |]|]; cbn in Hv; try discriminate.
  injection Hv as <-. apply trim_idempotent.
Qed.

Lemma trimmed_fields_trimmed body videoUrl caption :
  trimmed_fields body = inr (videoUrl, caption) ->
  (forall s, videoUrl = Some s -> JS.trim s = s) /\
  (forall s, caption = Some s -> JS.trim s = s).
Proof.
  unfold trimmed_fields.
  destruct (JS.get body "videoUrl") as [e|v]; [discriminate|].
  destruct (JS.trim_opt "body.videoUrl" v) as [e|videoUrl'] eqn:Hv; [discriminate|].
  destruct (JS.get body "caption") as [e|c]; [discriminate|].
  destruct (JS.trim_opt "body.caption" c) as [e|caption'] eqn:Hc; [discriminate|].
  intros [= <- <-]. split; intros s Hs.
  - exact (trim_opt_trimmed _ _ _ _ Hv Hs).
  - exact (trim_opt_trimmed _ _ _ _ Hc Hs).
Qed.

Lemma falsy_false v :
  JS.falsy v = false -> exists s, v = Some s /\ s <> "".
Proof.
  destruct v as [[|c s]|]; cbn; try discriminate. intros _. eexists. split; [reflexivity|discriminate].
Qed.

(** X24: whatever the request and whatever [publishVideo] does, [POST] calls
    it at most once, and then with a [videoUrl] and a [caption] that are not
    empty and have no white space at either end; when [POST] answers, it is
    with status 400 and without a call, or with status 200 or 502 after the
    one call. *)
Theorem POST_calls_and_statuses request_json :
  (fst (run publishVideo (POST request_json)) = [] \/
   exists videoUrl caption,
     fst (run publishVideo (POST request_json)) = [(videoUrl, caption)] /\
     videoUrl <> "" /\ caption <> "" /\
     JS.trim videoUrl = videoUrl /\ JS.trim caption = caption) /\
  (forall response,
     snd (run publishVideo (POST request_json)) = inr response ->
     (status response = 400%Z /\ fst (run publishVideo (POST request_json)) = []) \/
     ((status response = 200%Z \/ status response = 502%Z) /\
      length (fst (run publishVideo (POST request_json))) = 1)).
Proof.
  unfold POST. destruct request_json as [e|body].
  { split; [left; reflexivity|]. intros response [= <-]. left. split; reflexivity. }
  destruct (trimmed_fields body) as [e|[videoUrl caption]] eqn:Hfields.
  { split; [left; reflexivity|]. intros response. discriminate. }
  destruct (JS.falsy videoUrl) eqn:Hv.
  { split; [left; reflexivity|]. intros response [= <-]. left. split; reflexivity. }
  destruct (JS.falsy caption) eqn:Hc.
  { split; [left; reflexivity|]. intros response [= <-]. left. split; reflexivity. }
  apply trimmed_fields_trimmed in Hfields as [Hvt Hct].
  apply falsy_false in Hv as (v & -> & Hvne). apply falsy_false in Hc as (c & -> & Hcne).
  cbn [run default from_option id].
  destruct (publishVideo v c) as [e|r]; cbn [fst snd run].
  - split; [|intros response; discriminate].
    right. exists v, c. repeat split; auto.
  - split.
    + right. exists v, c. repeat split; auto.
    + intros response [= <-]. right. split; [|reflexivity].
      cbn [status]. destruct (String.eqb (PublishResponse.status r) "success"); auto.
Qed.

(** [POST] for a body with two strings, as the page sends it. *)
Lemma run_POST_strings rawUrl rawCaption :
  run publishVideo
    (POST (inr (JS.JObj [("videoUrl", JS.JStr rawUrl); ("caption", JS.JStr rawCaption)]))) =
  if JS.truthy (JS.trim rawUrl) then
    if JS.truthy (JS.trim rawCaption) then
      match publishVideo (JS.trim rawUrl) (JS.trim rawCaption) with
      | inl e => ([(JS.trim rawUrl, JS.trim rawCaption)], inl e)
      | inr r =>
          ([(JS.trim rawUrl, JS.trim rawCaption)],
           inr (Json r (if String.eqb (PublishResponse.status r) "success"
                        then 200%Z else 502%Z)))
      end
    else ([], inr (Json (error_body "Caption cannot be empty.") 400%Z))
  else ([], inr (Json (error_body "Provide a publicly accessible videoUrl.") 400%Z)).
Proof.
  unfold POST, trimmed_fields. cbn [JS.get JS.assoc String.eqb Ascii.eqb Bool.eqb JS.trim_opt].
  unfold JS.falsy.
  destruct (JS.truthy (JS.trim rawUrl)); cbn [negb]; [|reflexivity].
  destruct (JS.truthy (JS.trim rawCaption)); cbn [negb]; [|reflexivity].
  cbn [run default from_option id].
  destruct (publishVideo (JS.trim rawUrl) (JS.trim rawCaption)); reflexivity.
Qed.

End route_more.

(** ** The page and the route together *)

Section wire_facts.
Import Planner PersistentState Home.
Context {S : Type} `{Storage S} `{Codec (list VideoTask.t)}.
Variable publishVideo : string -> string -> JS.completion PublishResponse.t.
Variable crashed : JS.thrown -> fetched.
Implicit Types (a : app (S := S)) (task : VideoTask.t).

Lemma fetch_request_body task :
  Wire.fetch publishVideo crashed (request_body task) =
  if JS.truthy (JS.trim (VideoTask.videoUrl task)) then
    if JS.truthy (JS.trim (outbound_caption task)) then
      match publishVideo (JS.trim (VideoTask.videoUrl task))
                         (JS.trim (outbound_caption task)) with
      | inl e => crashed e
      | inr r =>
          Resolved (if String.eqb (PublishResponse.status r) "success"
                    then 200%Z else 502%Z)
                   (inr (Wire.response_json r))
      end
    else Resolved 400 (inr (Wire.response_json (Route.error_body "Caption cannot be empty.")))
  else Resolved 400
         (inr (Wire.response_json (Route.error_body "Provide a publicly accessible videoUrl."))).
Proof.
  unfold Wire.fetch, Wire.request_json, request_body. cbn [payload_videoUrl payload_caption].
  rewrite run_POST_strings.
  destruct (JS.truthy (JS.trim (VideoTask.videoUrl task))); [|reflexivity].
  destruct (JS.truthy (JS.trim (outbound_caption task))); [|reflexivity].
  destruct (publishVideo _ _); reflexivity.
Qed.

Lemma outcome_of_error_body code body :
  ok code = false ->
  outcome (Resolved code (inr (Wire.response_json body))) =
  status_and_notes failed (JS.JStr (PublishResponse.message body)).
Proof. intros Hok. unfold outcome, attempt, succeeded. rewrite Hok. reflexivity. Qed.

Lemma outcome_of_success_body body :
  PublishResponse.status body = "success" ->
  outcome (Resolved 200 (inr (Wire.response_json body))) =
  status_and_notes published
    (JS.JStr ("Published with media id " ++
              default "unknown" (PublishResponse.instagramMediaId body))).
Proof.
  intros Hs. rewrite outcome_of_success; [|reflexivity|cbn; rewrite Hs; reflexivity].
  destruct body as [st msg [mediaId|] [publishId|]]; reflexivity.
Qed.


(** X26: for a task whose [videoUrl] and outbound caption are not blank and
    a [publishVideo] that resolves, every record of the task ends
    [published], with the media id, or ["unknown"], in the notes, when the
    result has [status] equal to ["success"], and [failed] with the result's
    message as notes otherwise. *)
Theorem publish_relays_upstream_result now0 now1 task meanwhile a result i r0 :
  JS.trim (VideoTask.videoUrl task) <> "" ->
  JS.trim (outbound_caption task) <> "" ->
  publishVideo (JS.trim (VideoTask.videoUrl task)) (JS.trim (outbound_caption task))
    = inr result ->
  tasks (meanwhile (fst (handlePublish_request now0 task a))) !! i = Some r0 ->
  VideoTask.id r0 = VideoTask.id task ->
  exists r,
    tasks (handlePublish now0 now1 task (Wire.fetch publishVideo crashed) meanwhile a) !! i
      = Some r /\
    (PublishResponse.status result = "success" ->
     VideoTask.status r = published /\
     VideoTask.notes r =
     Some (JS.JStr ("Published with media id " ++
                    default "unknown" (PublishResponse.instagramMediaId result)))) /\
    (PublishResponse.status result <> "success" ->
     VideoTask.status r = failed /\
     VideoTask.notes r = Some (JS.JStr (PublishResponse.message result))).
Proof.
  intros Hurl Hcap Hup Hi Hid.
  rewrite handlePublish_unfold, fetch_request_body.
  rewrite (proj2 (truthy_iff _) Hurl), (proj2 (truthy_iff _) Hcap), Hup.
  destruct (String.eqb (PublishResponse.status result) "success") eqn:E.
  - apply String.eqb_eq in E.
    destruct (settle_record now1 task _ _ i r0 _ _ (outcome_of_success_body result E) Hi Hid)
      as (r & Hr & Hstatus & Hnotes).
    exists r. split; [exact Hr|]. split; [auto|]. intros Hne. contradiction.
  - apply String.eqb_neq in E.
    destruct (settle_record now1 task _ _ i r0 _ _
                (outcome_of_error_body 502 result eq_refl) Hi Hid)
      as (r & Hr & Hstatus & Hnotes).
    exists r. split; [exact Hr|]. split; [intros Heq; contradiction|auto].
Qed.

End wire_facts.

(** ** The further properties at concrete inputs *)

Section more_instances.
Import Planner PersistentState Home Samples.

Lemma hashtags_onChange_normalizes_witness :
  JS.trim "#Reels" = "#Reels" /\ JS.without "," "#Reels" = true.
Proof.
  destruct (hashtags_onChange_normalizes "#DailyDrop, #Reels ,," board "#Reels")
    as (_ & Htrim & Hcomma & _).
  - cbn. right. left. reflexivity.
  - split; assumption.
Defined.

Lemma hashtags_value_round_trip_witness :
  Draft.hashtags
    (draft (hashtags_onChange
              (hashtags_value (hashtags_onChange "#DailyDrop, #Reels" board))
              (hashtags_onChange "#DailyDrop, #Reels" board))) =
  ["#DailyDrop"; "#Reels"].
Proof.
  rewrite (hashtags_value_round_trip (hashtags_onChange "#DailyDrop, #Reels" board)).
  - reflexivity.
  - intros tag [<- | [<- | []]]; repeat split; discriminate.
Defined.

Lemma handleCaptionGenerate_takes_hash_words_witness :
  In "#reels" (Draft.hashtags (draft (handleCaptionGenerate slogan board))).
Proof.
  apply (proj1 (handleCaptionGenerate_takes_hash_words slogan board "#reels")).
  split; [|reflexivity]. cbn. right. right. left. reflexivity.
Defined.

Lemma saveTaskDraft_normalizes_hashtags_witness :
  exists task,
    tasks (saveTaskDraft "n9" "t0" "t0" "2024-05-01"
             (hashtags_onChange "#DailyDrop, #Reels" board)) = (tasks board ++ [task])%list /\
    VideoTask.hashtags task = ["#DailyDrop"; "#Reels"].
Proof.
  destruct (saveTaskDraft_normalizes_hashtags "n9" "t0" "t0" "2024-05-01"
              (hashtags_onChange "#DailyDrop, #Reels" board)) as (task & Htasks & _ & Hkept).
  exists task. split; [exact Htasks|]. apply Hkept.
  intros raw [<- | [<- | []]]; split; discriminate || reflexivity.
Defined.

Lemma hydrate_loads_stored_value_witness :
  hydrate storage_key (mount [reel "a1" queued] emptied) = Cell [] true emptied [].
Proof.
  apply (hydrate_loads_stored_value storage_key (mount [reel "a1" queued] emptied) "[]" []).
  - reflexivity.
  - discriminate.
  - reflexivity.
Defined.

Lemma hydrate_survives_getItem_witness :
  hydrate storage_key (mount [reel "a1" queued] Denied) =
  Cell [reel "a1" queued] true Denied
       ["Failed to read daily-video-agent-tasks from localStorage"].
Proof.
  apply (hydrate_survives_getItem storage_key (mount [reel "a1" queued] Denied)
           (JS.IsError "The operation is insecure.")).
  reflexivity.
Defined.

Lemma updateState_survives_write_failure_witness :
  updateState storage_key (inl []) (mount [reel "a1" queued] Denied) =
  Cell [] false Denied ["Failed to persist daily-video-agent-tasks to localStorage"].
Proof.
  apply (updateState_survives_write_failure storage_key (inl [])
           (mount [reel "a1" queued] Denied) (JS.IsError "The operation is insecure.")).
  reflexivity.
Defined.

Lemma updateState_then_reload_witness :
  localStorage (updateState storage_key (inr (fun _ => [])) (store board)) !! storage_key
    = Some "[]" /\
  state (usePersistentState storage_key [reel "a1" queued]
           (localStorage (updateState storage_key (inr (fun _ => [])) (store board)))) = [].
Proof.
  destruct (updateState_then_reload storage_key (inr (fun _ => [])) (store board) "[]"
              [reel "a1" queued]) as (Hentry & _ & Hreload); [reflexivity|].
  split; [exact Hentry|]. rewrite Hreload; [reflexivity|discriminate|reflexivity].
Defined.

Lemma deleteTask_absent_witness :
  tasks (deleteTask "zz" board) = tasks board.
Proof.
  apply (proj1 (deleteTask_absent "zz" board)).
  intros task [<- | [<- | []]]; discriminate.
Defined.

Lemma saveTaskDraft_then_deleteTask_witness :
  tasks (deleteTask "n9" (saveTaskDraft "n9" "t0" "t0" "2024-05-01" board)) = tasks board.
Proof.
  apply (saveTaskDraft_then_deleteTask "n9" "t0" "t0" "2024-05-01" board).
  intros task [<- | [<- | []]]; discriminate.
Defined.

Lemma handlePublish_ends_failed_or_published_witness :
  exists r,
    tasks (handlePublish "t0" "t1" (reel "a1" queued) rate_limited (fun a => a) board) !! 0
      = Some r /\
    (VideoTask.status r = failed \/ VideoTask.status r = published).
Proof.
  destruct (handlePublish_ends_failed_or_published "t0" "t1" (reel "a1" queued)
              rate_limited (fun a => a) board 0 _ eq_refl eq_refl) as (r & Hr & Hstatus & _).
  exists r. split; assumption.
Defined.

Lemma handlePublish_frame_witness :
  tasks (handlePublish "t0" "t1" (reel "a1" queued) accepted (fun a => a) board) !! 1
    = Some (reel "b2" ready).
Proof.
  destruct (handlePublish_frame "t0" "t1" (reel "a1" queued) accepted board 1
              (reel "b2" ready) eq_refl) as (_ & r & Hr & Hsame & _).
  rewrite Hr, Hsame; [reflexivity|discriminate].
Defined.

Lemma overdueTasks_grows_witness :
  In (dated "d1" "2024-04-30" ready) (overdueTasks calendar_date (noon + 60000) week).
Proof.
  apply (overdueTasks_grows calendar_date noon (noon + 60000) week).
  - unfold noon. lia.
  - cbn. left. reflexivity.
Defined.


Lemma failed_task_stays_overdue_witness :
  exists r,
    In r (overdueTasks calendar_date noon
            (handlePublish "t0" "t1" (dated "d1" "2024-04-30" ready) rate_limited
               (fun a => a) week)) /\
    VideoTask.status r = failed.
Proof.
  destruct (failed_task_stays_overdue calendar_date "t0" "t1"
              (dated "d1" "2024-04-30" ready) rate_limited (fun a => a) week noon
              (with_updatedAt "t0" (spread (dated "d1" "2024-04-30" ready)
                                           (status_only publishing))))
    as (r & Hin & _ & Hstatus & _).
  - intros code result [= <- <-]. left. reflexivity.
  - reflexivity.
  - cbn. left. reflexivity.
  - exists r. split; assumption.
Defined.

Lemma reset_to_ready_stays_overdue_witness :
  exists r,
    In r (overdueTasks calendar_date noon
            (reset_to_ready (dated "d1" "2024-04-30" ready) "t1" week)) /\
    VideoTask.updatedAt r = "t1".
Proof.
  destruct (reset_to_ready_stays_overdue calendar_date noon "t1" week
              (dated "d1" "2024-04-30" ready)) as (r & Hin & _ & _ & Hstamp).
  - cbn. left. reflexivity.
  - exists r. split; assumption.
Defined.

Lemma by_code_units_asymmetric (x y : string) :
  (0 < by_code_units y x)%Z -> (by_code_units x y <= 0)%Z.
Proof.
  unfold by_code_units. rewrite (String.compare_antisym y x).
  destruct (String.compare x y); cbn; lia.
Qed.

Lemma groupedTasks_week : groupedTasks by_code_units week = inr week_buckets.
Proof. vm_compute. reflexivity. Qed.

Lemma groupedTasks_buckets_witness :
  groupedTasks by_code_units odd_board =
    inl (JS.IsError "acc[task.date].push is not a function") /\
  week_buckets !! "2024-05-03" = None.
Proof.
  destruct (groupedTasks_buckets by_code_units odd_board) as (Hthrows & _ & _).
  destruct (groupedTasks_buckets by_code_units week) as (_ & _ & Hbuckets).
  split.
  - apply Hthrows. exists (dated "d5" "constructor" ready).
    split; [cbn; right; left; reflexivity|reflexivity].
  - apply (proj1 (proj2 (Hbuckets week_buckets "2024-05-03" groupedTasks_week))).
    intros task [<- | [<- | [<- | [<- | []]]]]; discriminate.
Defined.

Lemma by_code_units_le (x y : string) :
  (by_code_units x y <= 0)%Z <-> String.le x y.
Proof.
  unfold by_code_units, String.le, String.leb.
  destruct (String.compare x y); cbn; split; (lia || tauto || discriminate || auto).
Qed.

Lemma by_code_units_transitive (x y z : string) :
  (by_code_units x y <= 0)%Z -> (by_code_units y z <= 0)%Z -> (by_code_units x z <= 0)%Z.
Proof. rewrite !by_code_units_le. apply transitivity. Qed.

Lemma groupedTasks_sorted_witness :
  StronglySorted
    (fun x y => (by_code_units (VideoTask.time x) (VideoTask.time y) <= 0)%Z)
    [dated "d1" "2024-04-30" ready; dated "d2" "2024-04-30" published].
Proof.
  apply (groupedTasks_sorted by_code_units week week_buckets "2024-04-30").
  - apply by_code_units_asymmetric.
  - apply by_code_units_transitive.
  - apply groupedTasks_week.
  - reflexivity.
Defined.

Lemma streak_on_track_witness :
  streak "2024-04-30" week_buckets = "On Track".
Proof.
  apply (proj2 (streak_on_track by_code_units "2024-04-30" week week_buckets
                  groupedTasks_week eq_refl)).
  exists (dated "d2" "2024-04-30" published).
  split; [cbn; right; left; reflexivity|]. split; reflexivity.
Defined.

Lemma upcomingDays_days_witness :
  exists day,
    upcomingDays may_days week_buckets !! 1 = Some day /\
    Day.id day = "2024-05-02" /\
    Permutation (Day.tasks day)
      [dated "d3" "2024-05-02" failed; dated "d4" "2024-05-02" published].
Proof.
  destruct (upcomingDays_days by_code_units may_days week week_buckets 1 groupedTasks_week)
    as (_ & day & Hday & Hid & Hperm).
  - lia.
  - reflexivity.
  - exists day. split; [exact Hday|].
    injection Hid as Hid _ _. split; [exact Hid|]. rewrite Hperm, Hid. reflexivity.
Defined.

Lemma POST_calls_and_statuses_witness :
  Route.status (Route.Json (Route.error_body "Provide a publicly accessible videoUrl.") 400%Z)
    = 400%Z /\
  fst (Route.run publishes (Route.POST (inr (JS.JObj [("videoUrl", JS.JStr "")])))) = [].
Proof.
  destruct (proj2 (POST_calls_and_statuses publishes
                     (inr (JS.JObj [("videoUrl", JS.JStr "")])))
              (Route.Json (Route.error_body "Provide a publicly accessible videoUrl.") 400%Z)
              eq_refl) as [Hrejected | [[H200 | H502] _]].
  - exact Hrejected.
  - discriminate.
  - discriminate.
Defined.

Lemma POST_rejects_blank_fields_witness :
  exists message,
    Route.run publishes (Route.POST (inr (JS.JObj [("videoUrl", JS.JStr "  ")]))) =
    ([], inr (Route.Json (Route.error_body message) 400%Z)).
Proof.
  destruct (POST_rejects_blank_fields publishes (inr (JS.JObj [("videoUrl", JS.JStr "  ")])))
    as (message & Hrun & _).
  - right. exists [("videoUrl", JS.JStr "  ")], (Some ""), None.
    split; [reflexivity|]. split; [reflexivity|]. split; [reflexivity|].
    left. reflexivity.
  - exists message. exact Hrun.
Defined.

Lemma POST_upstream_rejection_witness :
  Route.run unreachable (Route.POST (inr (JS.JObj publish_request))) =
  ([("https://cdn.example/day5.mp4", "Day 5 mobility flow")],
   inl (JS.IsError "fetch failed")).
Proof.
  apply (POST_upstream_rejection unreachable publish_request
           " https://cdn.example/day5.mp4 " "Day 5 mobility flow"
           (JS.IsError "fetch failed") eq_refl eq_refl).
  - vm_compute. discriminate.
  - vm_compute. discriminate.
  - reflexivity.
Defined.


Lemma publish_relays_upstream_result_witness :
  exists r,
    tasks (handlePublish "t0" "t1" (reel "a1" queued) (Wire.fetch publishes internal_error)
             (fun a => a) board) !! 0 = Some r /\
    VideoTask.status r = published /\
    VideoTask.notes r = Some (JS.JStr "Published with media id m123").
Proof.
  destruct (publish_relays_upstream_result publishes internal_error "t0" "t1"
              (reel "a1" queued) (fun a => a) board
              (PublishResponse.mk "success" "Video published." (Some "m123") None) 0
              (with_updatedAt "t0" (spread (reel "a1" queued) (status_only publishing))))
    as (r & Hr & Hsuccess & _).
  - vm_compute. discriminate.
  - vm_compute. discriminate.
  - reflexivity.
  - reflexivity.
  - reflexivity.
  - exists r. split; [exact Hr|]. apply Hsuccess. reflexivity.
Defined.

End more_instances.
